(** * aiko_services: topic router, registrar protocol and actor messages

    A shallow embedding of [src/aiko_services/framework.py] and
    [src/aiko_services/actor.py].  Python module state ([class private],
    [class public]) is a record that is threaded through every function;
    a Python exception is the [Raise] outcome of a computation, which keeps
    the state reached when the exception left the function. *)

From stdpp Require Import gmap strings list fin_maps.
From Stdlib Require Import ZArith Ascii.

Local Open Scope string_scope.
Local Open Scope list_scope.

(** ** Python outcomes *)

Module Py.

(** The exception classes the two modules meet.  [SystemExit] and
    [KeyboardInterrupt] derive from [BaseException] only, so a clause
    [except Exception] lets them through. *)
Inductive exn :=
| TypeError | AttributeError | KeyError | IndexError
| ValueError | RuntimeError | SystemExit | KeyboardInterrupt.

Definition is_Exception (e : exn) : bool :=
  match e with
  | SystemExit | KeyboardInterrupt => false
  | _ => true
  end.

Definition is_TypeError (e : exn) : bool :=
  match e with
  | TypeError => true
  | _ => false
  end.

Inductive result (A : Type) :=
| Return (a : A)
| Raise (e : exn).
Arguments Return {A} a.
Arguments Raise {A} e.

(** A statement sequence over a mutable state [S]. *)
Definition M (S A : Type) : Type := S -> result A * S.

Definition ret {S A} (a : A) : M S A := fun s => (Return a, s).
Definition raise {S A} (e : exn) : M S A := fun s => (Raise e, s).
Definition bind {S A B} (c : M S A) (k : A -> M S B) : M S B :=
  fun s =>
    match c s with
    | (Return a, s') => k a s'
    | (Raise e, s') => (Raise e, s')
    end.
Definition get {S} : M S S := fun s => (Return s, s).
Definition modify {S} (f : S -> S) : M S unit := fun s => (Return tt, f s).
Definition when {S} (b : bool) (c : M S unit) : M S unit :=
  if b then c else ret tt.

(** An expression that returns or raises without touching the state. *)
Definition lift {S A} (r : result A) : M S A := fun s => (r, s).

(** [try: c  except <class> as e: h e]; an exception outside the class
    goes on to the caller. *)
Definition try_except {S A} (c : M S A) (class : exn -> bool)
  (h : exn -> M S A) : M S A :=
  fun s =>
    match c s with
    | (Return a, s') => (Return a, s')
    | (Raise e, s') => if class e then h e s' else (Raise e, s')
    end.

End Py.

Import Py.

Notation "'let*' x ':=' c 'in' k" := (bind c (fun x => k))
  (at level 10, x name, c at level 100, k at level 200).
Notation "c >>; k" := (bind c (fun _ => k))
  (at level 100, k at level 200, right associativity).

(** ** Python string and list primitives *)

(** [s.split("/")]: never empty, [""] for the empty string. *)
Fixpoint split (s : string) : list string :=
  match s with
  | EmptyString => [""]
  | String c s' =>
      if bool_decide (c = "/"%char) then "" :: split s'
      else match split s' with
           | [] => [String c ""]
           | t :: ts => String c t :: ts
           end
  end.

(** [c in s] for a one character string [c]. *)
Fixpoint contains (c : ascii) (s : string) : bool :=
  match s with
  | EmptyString => false
  | String d s' => bool_decide (c = d) || contains c s'
  end.

(** [sep.join(l)] *)
Fixpoint join (sep : string) (l : list string) : string :=
  match l with
  | [] => ""
  | [x] => x
  | x :: l' => x +:+ sep +:+ join sep l'
  end.

(** [l.remove(x)] when [x in l]: the first occurrence goes. *)
Fixpoint list_remove {A} `{EqDecision A} (x : A) (l : list A) : list A :=
  match l with
  | [] => []
  | y :: l' => if decide (x = y) then l' else y :: list_remove x l'
  end.

(** [x in l] *)
Definition list_in {A} `{EqDecision A} (x : A) (l : list A) : bool :=
  bool_decide (x ∈ l).

(** [s.split(sep)] for a one character separator. *)
Fixpoint split_on (sep : ascii) (s : string) : list string :=
  match s with
  | EmptyString => [""]
  | String c s' =>
      if bool_decide (c = sep) then "" :: split_on sep s'
      else match split_on sep s' with
           | [] => [String c ""]
           | t :: ts => String c t :: ts
           end
  end.

(** [s.count(c)] for a one character string [c]. *)
Fixpoint count_char (c : ascii) (s : string) : nat :=
  match s with
  | EmptyString => 0
  | String d s' => (if bool_decide (c = d) then 1 else 0) + count_char c s'
  end.

(** What [for x in s] yields for a string [s]: its characters, each a
    string of length one. *)
Fixpoint chars (s : string) : list string :=
  match s with
  | EmptyString => []
  | String c s' => String c "" :: chars s'
  end.

(** ** framework.py *)

Module Framework.

(** Handlers are Python function objects; [in] and [remove] compare them by
    identity, so a handler is a name here. *)
Definition Handler := nat.

(** Modelled from the spec: [ConnectionState] is declared outside src/; the
    spec lists the states DISCONNECTED, TRANSPORT and REGISTRAR. *)
Inductive ConnectionState := DISCONNECTED | TRANSPORT | REGISTRAR.

(** What the transport object [public.message] was asked to do. *)
Inductive TransportCall :=
| publish (topic payload : string)
| subscribe (topic : string)
| unsubscribe (topic : string).

(** A parsed payload parameter: a string or a nested list. *)
#[warnings="-register-all"]
Inductive Sexp :=
| Atom (s : string)
| SList (l : list Sexp).

(** [class private] *)
Record Private := mkPrivate {
  exit_status : Z;
  message_handlers : gmap string (list Handler);
  message_handlers_wildcard_topics : list string;
  registrar_handler : option Handler
}.

(** [class public]; [message] is [None] until [initialize] creates the
    transport client, then it holds the calls the client received. *)
Record Public := mkPublic {
  connection : ConnectionState;
  message : option (list TransportCall);
  protocol : option string;
  tags : list string;
  terminate_registrar_not_found : bool;
  topic_path : string;
  topic_path_registrar : option Sexp;
  transport : string
}.

(** The module state, with what the process shows outside: whether
    [event.terminate()] was called and the lines printed. *)
Record World := mkWorld {
  private : Private;
  public : Public;
  event_terminated : bool;
  stdout : list string
}.

Definition set_private (f : Private -> Private) (w : World) : World :=
  mkWorld (f (private w)) (public w) (event_terminated w) (stdout w).
Definition set_public (f : Public -> Public) (w : World) : World :=
  mkWorld (private w) (f (public w)) (event_terminated w) (stdout w).

Definition set_exit_status (v : Z) (p : Private) : Private :=
  mkPrivate v (message_handlers p) (message_handlers_wildcard_topics p)
    (registrar_handler p).
Definition set_message_handlers (v : gmap string (list Handler)) (p : Private)
  : Private :=
  mkPrivate (exit_status p) v (message_handlers_wildcard_topics p)
    (registrar_handler p).
Definition set_wildcard_topics (v : list string) (p : Private) : Private :=
  mkPrivate (exit_status p) (message_handlers p) v (registrar_handler p).
Definition set_registrar_handler_field (v : option Handler) (p : Private)
  : Private :=
  mkPrivate (exit_status p) (message_handlers p)
    (message_handlers_wildcard_topics p) v.

Definition set_connection (v : ConnectionState) (p : Public) : Public :=
  mkPublic v (message p) (protocol p) (tags p)
    (terminate_registrar_not_found p) (topic_path p) (topic_path_registrar p)
    (transport p).
Definition set_message (v : option (list TransportCall)) (p : Public) : Public :=
  mkPublic (connection p) v (protocol p) (tags p)
    (terminate_registrar_not_found p) (topic_path p) (topic_path_registrar p)
    (transport p).
Definition set_topic_path_registrar (v : option Sexp) (p : Public) : Public :=
  mkPublic (connection p) (message p) (protocol p) (tags p)
    (terminate_registrar_not_found p) (topic_path p) v (transport p).

Definition print (line : string) : M World unit :=
  modify (fun w =>
    mkWorld (private w) (public w) (event_terminated w) (stdout w ++ [line])).

(** [public.message.<call>(...)]: an attribute of [None] is an
    [AttributeError]. *)
Definition message_call (c : TransportCall) : M World unit :=
  fun w =>
    match message (public w) with
    | None => (Raise AttributeError, w)
    | Some calls => (Return tt, set_public (set_message (Some (calls ++ [c]))) w)
    end.

(** [if public.message:] *)
Definition message_truthy (w : World) : bool :=
  bool_decide (is_Some (message (public w))).

(** The module state when the class bodies have run. *)
Definition initial (topic_path : string) : World :=
  mkWorld (mkPrivate 0 ∅ [] None)
    (mkPublic DISCONNECTED None None [] false topic_path None "mqtt")
    false [].

(** The state once [initialize] has created the transport client. *)
Definition connected (topic_path : string) : World :=
  set_public (set_message (Some [])) (initial topic_path).

(** [set_protocol], [set_terminate_registrar_not_found],
    [set_registrar_handler] and [add_tags] *)
Definition set_protocol (protocol : option string) : M World unit :=
  modify (set_public (λ p,
    mkPublic (connection p) (message p) protocol (tags p)
      (terminate_registrar_not_found p) (topic_path p)
      (topic_path_registrar p) (transport p))).

Definition set_terminate_registrar_not_found (flag : bool) : M World unit :=
  modify (set_public (λ p,
    mkPublic (connection p) (message p) (protocol p) (tags p) flag
      (topic_path p) (topic_path_registrar p) (transport p))).

Definition set_registrar_handler (registrar_handler : option Handler)
  : M World unit :=
  modify (set_private (set_registrar_handler_field registrar_handler)).

Definition add_tags (new_tags : list string) : M World unit :=
  modify (set_public (λ p,
    mkPublic (connection p) (message p) (protocol p) (tags p ++ new_tags)
      (terminate_registrar_not_found p) (topic_path p)
      (topic_path_registrar p) (transport p))).

(** *** Registration *)

Definition add_message_handler (message_handler : Handler) (topic : string)
  : M World unit :=
  let* w := get in
  when (negb (bool_decide (is_Some (message_handlers (private w) !! topic))))
    (modify (set_private (fun p =>
       set_message_handlers (<[topic := []]> (message_handlers p)) p)) >>;
     when (contains "#" topic || contains "+" topic)
       (modify (set_private (fun p =>
          set_wildcard_topics
            (message_handlers_wildcard_topics p ++ [topic]) p)))) >>;
  let* w := get in
  match message_handlers (private w) !! topic with
  | None => raise KeyError
  | Some hs =>
      modify (set_private
        (set_message_handlers
           (<[topic := hs ++ [message_handler]]> (message_handlers (private w)))))
  end >>;
  let* w := get in
  when (message_truthy w) (message_call (subscribe topic)).

(** [del private.message_handlers_wildcard_topics[topic]] indexes a list
    with a string, which Python answers with a [TypeError]. *)
Definition del_list_item_by_str (topic : string) : M World unit :=
  raise TypeError.

Definition remove_message_handler (message_handler : Handler) (topic : string)
  : M World unit :=
  let* w := get in
  match message_handlers (private w) !! topic with
  | None => ret tt
  | Some hs =>
      let hs' :=
        if list_in message_handler hs then list_remove message_handler hs
        else hs in
      modify (set_private
        (set_message_handlers (<[topic := hs']> (message_handlers (private w))))) >>;
      when (bool_decide (length hs' = 0))
        (modify (set_private (fun p =>
           set_message_handlers (delete topic (message_handlers p)) p)) >>;
         let* w := get in
         when (message_truthy w) (message_call (unsubscribe topic))) >>;
      let* w := get in
      when (list_in topic (message_handlers_wildcard_topics (private w)))
        (del_list_item_by_str topic)
  end.

(** A series of registrations, oldest first. *)
Definition register_all (registrations : list (Handler * string)) (w : World)
  : World :=
  foldl (λ w r, snd (add_message_handler r.1 r.2 w)) w registrations.

(** *** Matching *)

(** The body of the loop of [topic_search] for one wildcard topic:
    [tokens[-1]], [tokens[0]] and [tokens[:-1]] on lists that [split]
    never leaves empty. *)
Definition wildcard_match (tokens wildcard_tokens : list string) : bool :=
  if bool_decide (last wildcard_tokens = Some "#") then
    bool_decide (removelast tokens = removelast wildcard_tokens)
  else
    bool_decide (head tokens = head wildcard_tokens)
    && bool_decide (last tokens = last wildcard_tokens).

Fixpoint topic_search_loop (topic : string) (wildcard_topics : list string)
  (topics_matched : list string) : list string :=
  match wildcard_topics with
  | [] => topics_matched
  | wildcard_topic :: rest =>
      let tokens := split topic in
      let wildcard_tokens := split wildcard_topic in
      topic_search_loop topic rest
        (if wildcard_match tokens wildcard_tokens
         then topics_matched ++ [wildcard_topic]
         else topics_matched)
  end.

Definition topic_search (w : World) (topic : string)
  (topics : gmap string (list Handler)) : list string :=
  let topics_matched :=
    if bool_decide (is_Some (topics !! topic)) then [topic] else [] in
  topic_search_loop topic (message_handlers_wildcard_topics (private w))
    topics_matched.

(** *** Dispatch *)

(** An inbound transport message; [payload] is [None] when the bytes are
    not UTF-8, in which case [decode] raises [UnicodeDecodeError], a
    [ValueError]. *)
Record MQTTMessage := mkMessage {
  topic : string;
  payload : option string
}.

(** [message_handler_list.extend(private.message_handlers[topic_match])]
    for every matched topic; a missing key is a [KeyError]. *)
Fixpoint extend_handlers (w : World) (topics_matched : list string)
  (message_handler_list : list Handler) : result (list Handler) :=
  match topics_matched with
  | [] => Return message_handler_list
  | topic_match :: rest =>
      match message_handlers (private w) !! topic_match with
      | None => Raise KeyError
      | Some hs => extend_handlers w rest (message_handler_list ++ hs)
      end
  end.

Section Dispatch.

(** [message_handler(public, topic, payload_in)]: user code, which may
    change the module state, return a truth value or raise. *)
Variable handler_call : Handler -> string -> string -> M World bool.

(** [traceback.format_exc()] *)
Variable format_exc : exn -> string.

(** The [for message_handler in message_handler_list] loop.  Besides the
    state it returns whether the [return] statement ran and, as a ghost
    value, the handlers it called, in call order. *)
Fixpoint invoke_handlers (message_handler_list : list Handler)
  (topic payload_in : string) (called : list Handler) (w : World)
  : result bool * list Handler * World :=
  match message_handler_list with
  | [] => (Return false, called, w)
  | message_handler :: rest =>
      match handler_call message_handler topic payload_in w with
      | (Return true, w') => (Return true, called ++ [message_handler], w')
      | (Return false, w') =>
          invoke_handlers rest topic payload_in (called ++ [message_handler]) w'
      | (Raise e, w') =>
          if is_Exception e then
            invoke_handlers rest topic payload_in (called ++ [message_handler])
              (snd (print (format_exc e) w'))
          else (Raise e, called ++ [message_handler], w')
      end
  end.

Definition message_queue_handler (message : MQTTMessage) (w : World)
  : result unit * list Handler * World :=
  match payload message with
  | None => (Raise ValueError, [], w)
  | Some payload_in =>
      let topics_matched :=
        topic_search w (topic message) (message_handlers (private w)) in
      match extend_handlers w topics_matched [] with
      | Raise e => (Raise e, [], w)
      | Return message_handler_list =>
          if bool_decide (0 < length message_handler_list) then
            match invoke_handlers message_handler_list (topic message)
                    payload_in [] w with
            | (Return _, called, w') => (Return tt, called, w')
            | (Raise e, called, w') => (Raise e, called, w')
            end
          else (Return tt, [], w)
      end
  end.

End Dispatch.

(** *** Registrar protocol *)

(** [value == text] for a parsed parameter, [None] included. *)
Definition sexp_is (value : option Sexp) (text : string) : bool :=
  match value with
  | Some (Atom s) => bool_decide (s = text)
  | _ => false
  end.

(** The first half of [on_registrar_message]: [action], the [registrar]
    dictionary and [parse_okay] from the parsed command. *)
Definition registrar_parse (command : Sexp) (parameters : list Sexp)
  : option Sexp * gmap string Sexp * bool :=
  if bool_decide (0 < length parameters) then
    let action := parameters !! 0 in
    if sexp_is (Some command) "primary" then
      let '(registrar, parse_okay) :=
        if bool_decide (length parameters = 3) && sexp_is action "started" then
          match parameters !! 1, parameters !! 2 with
          | Some p1, Some p2 =>
              (<["timestamp" := p2]> (<["topic_path" := p1]> (∅ : gmap string Sexp)),
               true)
          | _, _ => (∅, false)
          end
        else (∅, false) in
      let parse_okay :=
        if bool_decide (length parameters = 1) && sexp_is action "stopped"
        then true else parse_okay in
      (action, registrar, parse_okay)
    else (action, ∅, false)
  else (None, ∅, false).

(** [if public.protocol:] *)
Definition protocol_truthy (w : World) : bool :=
  match protocol (public w) with
  | Some p => negb (bool_decide (p = ""))
  | None => false
  end.

(** Modelled from the spec: [Connection.update_state] is outside src/; the
    connection state becomes the given one. *)
Definition update_state (s : ConnectionState) : M World unit :=
  modify (set_public (set_connection s)).

(** [event.terminate()] is recorded in [event_terminated]. *)
Definition terminate (status : Z) : M World unit :=
  modify (set_private (set_exit_status status)) >>;
  modify (fun w => mkWorld (private w) (public w) true (stdout w)).

Section Registrar.

(** [parse] of aiko_services.utilities is outside src/: it returns the
    command, a string or a list, and the parameters, or it raises. *)
Variable parse : string -> result (Sexp * list Sexp).

(** [get_username()] *)
Variable get_username : string.

(** [private.registrar_handler(public, action, registrar)] *)
Variable registrar_handler_call :
  Handler -> option Sexp -> gmap string Sexp -> M World bool.

Definition announcement (w : World) (owner : string) : string :=
  let tags := join " " (tags (public w)) in
  "(add " +:+ topic_path (public w) +:+ " "
  +:+ default "None" (protocol (public w)) +:+ " "
  +:+ transport (public w) +:+ " " +:+ owner +:+ " (" +:+ tags +:+ "))".

(** The last block of [on_registrar_message]: the handler set through
    [set_registrar_handler], if any, is called and its result dropped. *)
Definition registrar_handler_block (action : option Sexp)
  (registrar : gmap string Sexp) : M World unit :=
  let* w := get in
  match registrar_handler (private w) with
  | None => ret tt
  | Some h =>
      let* handler_done := registrar_handler_call h action registrar in
      ret tt
  end.

Definition on_registrar_message (topic payload_in : string) : M World unit :=
  match parse payload_in with
  | Raise e => raise e
  | Return (command, parameters) =>
  let '(action, registrar, parse_okay) := registrar_parse command parameters in
  when parse_okay
    (when (sexp_is action "started")
       (let* w := get in
        when (protocol_truthy w)
          (match registrar !! "topic_path" with
           | None => raise KeyError
           | Some (SList _) => raise TypeError
           | Some (Atom registrar_topic_path) =>
               let topic := registrar_topic_path +:+ "/in" in
               let owner := get_username in
               let payload_out := announcement w owner in
               message_call (publish topic payload_out)
           end) >>;
        match registrar !! "topic_path" with
        | None => raise KeyError
        | Some p => modify (set_public (set_topic_path_registrar (Some p)))
        end >>;
        update_state REGISTRAR) >>;
     when (sexp_is action "stopped")
       (modify (set_public (set_topic_path_registrar None)) >>;
        update_state TRANSPORT >>;
        let* w := get in
        when (terminate_registrar_not_found (public w)) (terminate 1)) >>;
     registrar_handler_block action registrar)
  end.

End Registrar.

(** Modelled from the spec: [parse] of aiko_services.utilities is outside
    src/.  The wire grammar of the spec, [(command arg1 arg2 (nested list))]:
    words separated by spaces, lists in parentheses; the payload is one
    list, its first word the command, the rest the parameters.  A payload
    outside the grammar gives the empty command and no parameters. *)
Inductive Token := LPAREN | RPAREN | WORD (s : string).

Fixpoint tokenize (s : string) (word : string) : list Token :=
  let flush := if bool_decide (word = "") then [] else [WORD word] in
  match s with
  | EmptyString => flush
  | String c s' =>
      if bool_decide (c = "("%char) then flush ++ LPAREN :: tokenize s' ""
      else if bool_decide (c = ")"%char) then flush ++ RPAREN :: tokenize s' ""
      else if bool_decide (c = " "%char) then flush ++ tokenize s' ""
      else tokenize s' (word +:+ String c "")
  end.

Fixpoint parse_items (fuel : nat) (tokens : list Token)
  : option (list Sexp * list Token) :=
  match fuel with
  | 0 => None
  | S fuel' =>
      match tokens with
      | [] => None
      | RPAREN :: rest => Some ([], rest)
      | WORD s :: rest =>
          match parse_items fuel' rest with
          | Some (items, rest') => Some (Atom s :: items, rest')
          | None => None
          end
      | LPAREN :: rest =>
          match parse_items fuel' rest with
          | Some (inner, rest') =>
              match parse_items fuel' rest' with
              | Some (items, rest'') => Some (SList inner :: items, rest'')
              | None => None
              end
          | None => None
          end
      end
  end.

Definition spec_parse (payload : string) : string * list Sexp :=
  let tokens := tokenize payload "" in
  match tokens with
  | LPAREN :: rest =>
      match parse_items (length tokens) rest with
      | Some (Atom command :: parameters, []) => (command, parameters)
      | _ => ("", [])
      end
  | _ => ("", [])
  end.

(** [spec_parse] as a parser that returns: command and parameters. *)
Definition spec_parse_result (payload : string) : result (Sexp * list Sexp) :=
  let '(command, parameters) := spec_parse payload in
  Return (Atom command, parameters).

(** The [registrar] dictionary of a [started] payload. *)
Definition started_record (p1 timestamp : Sexp) : gmap string Sexp :=
  <["timestamp" := timestamp]> (<["topic_path" := p1]> ∅).

(** *** Registry states *)

(** [("#" in topic) or ("+" in topic)] *)
Definition is_wildcard (topic : string) : bool :=
  contains "#" topic || contains "+" topic.

(** The registry as registrations keep it: the wildcard list has no
    duplicates and holds exactly the registered topics with a wildcard
    character, and no topic is registered with an empty handler list. *)
Definition registry_wf (w : World) : Prop :=
  NoDup (message_handlers_wildcard_topics (private w))
  ∧ (∀ t, t ∈ message_handlers_wildcard_topics (private w) ↔
          is_Some (message_handlers (private w) !! t) ∧ is_wildcard t = true)
  ∧ (∀ t hs, message_handlers (private w) !! t = Some hs → hs ≠ []).

(** The states a process reaches from empty tables by registering
    handlers, by removals that return, and by changes of [public]. *)
Inductive reachable : World → Prop :=
| reachable_start w :
    message_handlers (private w) = ∅ →
    message_handlers_wildcard_topics (private w) = [] →
    reachable w
| reachable_add w h topic :
    reachable w → reachable (add_message_handler h topic w).2
| reachable_remove w h topic :
    reachable w →
    (remove_message_handler h topic w).1 = Return tt →
    reachable (remove_message_handler h topic w).2
| reachable_public w f :
    reachable w → reachable (set_public f w).

(** *** Well-known topics *)

(** [REGISTRAR_TOPIC] and [SERVICE_STATE_TOPIC], for the value of
    [get_namespace()]. *)
Definition REGISTRAR_TOPIC (namespace : string) : string :=
  namespace +:+ "/service/registrar".
Definition SERVICE_STATE_TOPIC (namespace : string) : string :=
  namespace +:+ "/+/+/state".

(** A handler that ends without a [return] statement, as
    [on_registrar_message] does: the router sees [None], which is not
    true. *)
Definition returns_None (c : M World unit) : M World bool :=
  c >>; ret false.

(** *** Tags *)

(** [add_tags_string]; [None] and the empty string are not truthy. *)
Definition add_tags_string (tags_string : option string) : M World unit :=
  match tags_string with
  | None => ret tt
  | Some text =>
      when (negb (bool_decide (text = ""))) (add_tags (split_on "," text))
  end.

(** [match_tags] *)
Definition match_tags (service_tags match_tags : list string) : bool :=
  forallb (λ tag, list_in tag service_tags) match_tags.

(** [parse_tags]: [key, value = tag.split("=")] is a [ValueError] unless
    the split has exactly two parts. *)
Fixpoint parse_tags_loop (tags_list : list string) (tags : gmap string string)
  : result (gmap string string) :=
  match tags_list with
  | [] => Return tags
  | tag :: rest =>
      match split_on "=" tag with
      | [key; value] => parse_tags_loop rest (<[key := value]> tags)
      | _ => Raise ValueError
      end
  end.

Definition parse_tags (tags_list : list string) : result (gmap string string) :=
  parse_tags_loop tags_list ∅.

(** [get_tag]; [dict.get] gives [None] for a missing key. *)
Definition get_tag (key : string) (tags : list string) : result (option string) :=
  match parse_tags tags with
  | Return parsed => Return (parsed !! key)
  | Raise e => Raise e
  end.

(** [set_transport] *)
Definition set_transport (transport : string) : M World unit :=
  modify (set_public (λ p,
    mkPublic (connection p) (message p) (protocol p) (tags p)
      (terminate_registrar_not_found p) (topic_path p)
      (topic_path_registrar p) transport)).

(** *** Notions of the specification *)

(** The segment-wise reading of a [+] pattern that the specification
    gives: as many segments, each pattern segment [+] or equal to the
    topic's. *)
Definition spec_plus_match (pattern_tokens tokens : list string) : Prop :=
  Forall2 (λ p t, p = "+" ∨ p = t) pattern_tokens tokens.

(** Every topic of the wildcard list has an entry in the handler
    dictionary. *)
Definition registry_consistent (w : World) : Prop :=
  ∀ t, t ∈ message_handlers_wildcard_topics (private w) →
       is_Some (message_handlers (private w) !! t).

(** Registration order: [h1] was registered before [h2]. *)
Definition registered_before (registrations : list (Handler * string))
  (h1 h2 : Handler) : Prop :=
  ∃ i j t1 t2, i < j ∧ registrations !! i = Some (h1, t1)
               ∧ registrations !! j = Some (h2, t2).

(** The handlers registered on a topic, in the order of their
    registration. *)
Definition handlers_registered (registrations : list (Handler * string))
  (t : string) : list Handler :=
  (List.filter (λ r, bool_decide (r.2 = t)) registrations).*1.

(** The registered topics that hold [#] or [+], each once, in the order in
    which they were first registered. *)
Definition patterns_registered (registrations : list (Handler * string))
  : list string :=
  foldl (λ acc r,
           if is_wildcard r.2 && negb (list_in r.2 acc)
           then acc ++ [r.2] else acc)
    [] registrations.

(** The order of dispatch for a topic after a series of registrations:
    the handlers of the topic itself, then, for each matching pattern in
    the order of first registration, the handlers of that pattern; the
    handlers of one topic or pattern in registration order. *)
Definition dispatch_order (registrations : list (Handler * string))
  (topic : string) : list Handler :=
  handlers_registered registrations topic
  ++ concat (handlers_registered registrations
               <$> List.filter (λ p, wildcard_match (split topic) (split p))
                     (patterns_registered registrations)).

End Framework.

(** ** actor.py *)

Module Actor.

(** A Python object as [Message.invoke] looks at it: [None], or an object
    with a truth value that may be callable. *)
Definition Callable := nat.

Inductive Value :=
| VNone
| VObject (truthy : bool) (callable : option Callable).

Definition value_truthy (v : Value) : bool :=
  match v with
  | VNone => false
  | VObject b _ => b
  end.

(** The target of a message: its attributes and its [str()]. *)
Record Object := mkObject {
  attributes : gmap string Value;
  object_str : string
}.

Inductive Level := DEBUG | ERROR.

Inductive ShareValue :=
| SBool (b : bool)
| SStr (s : string).

(** [s[1:-1]] *)
Definition strip_ends (s : string) : string :=
  match s with
  | EmptyString => ""
  | String _ s' => String.string_of_list_ascii (removelast (String.list_ascii_of_string s'))
  end.

(** The command of a message: a string, or another object, such as a
    list that [parse] returned, with the text [str()] gives for it. *)
Inductive Command :=
| CommandStr (s : string)
| CommandOther (text : string).

Definition command_str (c : Command) : string :=
  match c with
  | CommandStr s => s
  | CommandOther text => text
  end.

Section Actor.

(** Message arguments and the state that user code works on. *)
Variables Arg Heap : Type.

Record Message := mkMessage {
  target_object : Object;
  command : Command;
  arguments : list Arg;
  target_function : Value
}.

(** The calls [_LOGGER] received, whether it is enabled for [DEBUG], the
    [share] dictionary of the actor and the user state. *)
Record World := mkWorld {
  logger : list (Level * string);
  debug_enabled : bool;
  share : gmap string ShareValue;
  heap : Heap
}.

Definition logger_call (level : Level) (text : string) : M World unit :=
  modify (fun w =>
    mkWorld (logger w ++ [(level, text)]) (debug_enabled w) (share w) (heap w)).

Definition set_share (key : string) (v : ShareValue) : M World unit :=
  modify (fun w =>
    mkWorld (logger w) (debug_enabled w) (<[key := v]> (share w)) (heap w)).

(** [str()] of an argument list and of an exception. *)
Variable str_arguments : list Arg -> string.
Variable str_exn : exn -> string.

(** A callable takes some numbers of positional arguments and has a body. *)
Variable accepts : Callable -> nat -> bool.
Variable body : Callable -> list Arg -> M World unit.

(** The call of [f] on the unpacked arguments: when they do not bind,
    Python raises
    [TypeError] before the body starts. *)
Definition call (f : Callable) (arguments : list Arg) : M World unit :=
  if accepts f (length arguments) then body f arguments else raise TypeError.

(** [Message.__repr__] *)
Definition repr (self : Message) : string :=
  "Message: " +:+ command_str (command self) +:+ "("
  +:+ strip_ends (str_arguments (arguments self)) +:+ ")".

(** [if diagnostic:] *)
Definition diagnostic_truthy (diagnostic : option string) : bool :=
  match diagnostic with
  | Some text => negb (bool_decide (text = ""))
  | None => false
  end.

(** The callable that [invoke] settles on: [self.target_function], or when
    that is not truthy the attribute named [command] of the target; an
    [AttributeError] of the lookup is passed over, while for a command
    that is no string [__getattribute__] raises a [TypeError], which is
    not caught. *)
Definition resolve (self : Message) : result Value :=
  let target_function := target_function self in
  if negb (value_truthy target_function) then
    match command self with
    | CommandStr name =>
        match attributes (target_object self) !! name with
        | Some attribute => Return attribute
        | None => Return target_function
        end
    | CommandOther _ => Raise TypeError
    end
  else Return target_function.

(** How [invoke] comes to its callable, read off the message and its
    target: the handler given with the message when it is truthy,
    otherwise the attribute of the target that the command names, and the
    handler again when there is no such attribute. *)
Inductive settles_on (self : Message) : Value → Prop :=
| settles_on_handler :
    value_truthy (target_function self) = true →
    settles_on self (target_function self)
| settles_on_attribute name attribute :
    value_truthy (target_function self) = false →
    command self = CommandStr name →
    attributes (target_object self) !! name = Some attribute →
    settles_on self attribute
| settles_on_missing name :
    value_truthy (target_function self) = false →
    command self = CommandStr name →
    attributes (target_object self) !! name = None →
    settles_on self (target_function self).

(** The first statement of [invoke]: a debug record when the logger is
    enabled for [DEBUG]. *)
Definition debug_line (self : Message) : M World unit :=
  let* w := get in
  when (debug_enabled w) (logger_call DEBUG ("Message.invoke(): " +:+ repr self)).

Definition invoke (self : Message) : M World unit :=
  debug_line self >>;
  let* target_function := lift (resolve self) in
  let* diagnostic :=
    match target_function with
    | VNone =>
        ret (Some (repr self +:+ ": Function not found in: "
                   +:+ object_str (target_object self)))
    | VObject _ (Some f) =>
        try_except (call f (arguments self) >>; ret None) is_TypeError
          (fun type_error => ret (Some (repr self +:+ ": " +:+ str_exn type_error)))
    | VObject _ None => ret (Some (repr self +:+ ": isn't callable"))
    end in
  match diagnostic with
  | Some text => when (diagnostic_truthy diagnostic) (logger_call ERROR text)
  | None => ret tt
  end.

(** [aiko.process.run()], the event loop. *)
Variable process_run : M World unit.

(** [traceback.format_exc()] *)
Variable format_exc : exn -> string.

(** [ActorImpl.run] *)
Definition run : M World unit :=
  set_share "running" (SBool true) >>;
  try_except process_run is_Exception
    (fun exception => logger_call ERROR (format_exc exception) >>; raise exception) >>;
  set_share "running" (SBool false).

(** [ActorImpl.is_running] *)
Definition is_running (w : World) : option ShareValue := share w !! "running".

End Actor.

(** *** Mailboxes *)

(** [class ActorTopic] *)
Module ActorTopic.
Definition IN : string := "in".
Definition OUT : string := "out".
Definition CONTROL : string := "control".
Definition STATE : string := "state".
Definition topics : list string := [CONTROL; STATE; IN; OUT].
End ActorTopic.

(** The fields of an actor that the mailbox methods read; [service_id] is
    the text that the f-string makes of it. *)
Record ActorImpl := mkActorImpl {
  actor_object : Object;
  name : string;
  service_id : string
}.

(** [ActorImpl._actor_mailbox_name] *)
Definition _actor_mailbox_name (self : ActorImpl) (topic : string) : string :=
  name self +:+ "/" +:+ service_id self +:+ "/" +:+ topic.

Section Mailbox.

Variable Arg : Type.

(** [ActorImpl._post_message]; the state is the list of the calls
    [event.mailbox_put(mailbox_name, message)], oldest first. *)
Definition _post_message (self : ActorImpl) (topic : string)
  (command : Command) (args : list Arg) (target_function : Value)
  : M (list (string * Message Arg)) unit :=
  let target_object := actor_object self in
  let message := mkMessage Arg target_object command args target_function in
  modify (λ posted, posted ++ [(_actor_mailbox_name self topic, message)]).

(** [actual_function.__name__] *)
Variable function_name : Callable → string.

(** [ActorImpl.proxy_post_message]; a function object is truthy and
    callable. *)
Definition proxy_post_message (proxy_name : string) (actual_object : ActorImpl)
  (actual_function : Callable) (args : list Arg)
  : M (list (string * Message Arg)) unit :=
  let command := function_name actual_function in
  let control_command :=
    String.prefix (ActorTopic.CONTROL +:+ "_") command in
  let topic := if control_command then ActorTopic.CONTROL else ActorTopic.IN in
  _post_message actual_object topic (CommandStr command) args
    (VObject true (Some actual_function)).

(** [parse] of aiko_services.utilities, outside src/: it returns the
    command, a string or not, and the parameters, or it raises. *)
Variable parse : string → result (Command * list Arg).

(** [ActorImpl._topic_in_handler] *)
Definition _topic_in_handler (self : ActorImpl) (topic payload_in : string)
  : M (list (string * Message Arg)) unit :=
  match parse payload_in with
  | Raise e => raise e
  | Return (command, parameters) =>
      _post_message self ActorTopic.IN command parameters VNone
  end.

(** [ActorImpl._mailbox_handler]: the message is invoked; the mailbox
    name and the time of posting are not looked at. *)
Definition _mailbox_handler (Heap Time : Type)
  (str_arguments : list Arg → string) (str_exn : exn → string)
  (accepts : Callable → nat → bool)
  (body : Callable → list Arg → M (World Heap) unit)
  (self : ActorImpl) (topic : string) (message : Message Arg)
  (time_posted : Time) : M (World Heap) unit :=
  invoke Arg Heap str_arguments str_exn accepts body message.

End Mailbox.

End Actor.

(** * Properties *)

Import Framework.

(** ** Strings *)

Lemma split_nonempty s : split s ≠ [].
Proof.
  destruct s as [|c s]; simpl; [done|].
  case_bool_decide; [done|]. by destruct (split s).
Qed.

Lemma split_head_is_Some s : is_Some (head (split s)).
Proof. pose proof (split_nonempty s). destruct (split s); [done|]. by eexists. Qed.

Lemma split_last_is_Some s : is_Some (last (split s)).
Proof.
  pose proof (split_nonempty s) as H.
  destruct (split s) as [|t ts] using rev_ind; [done|].
  rewrite last_snoc. by eexists.
Qed.

(** ** Topic matching *)

Section Matching.

Implicit Types (w : World) (topic p : string).

Lemma topic_search_loop_elem topic (wildcard_topics acc : list string) p :
  p ∈ topic_search_loop topic wildcard_topics acc ↔
  p ∈ acc ∨ (p ∈ wildcard_topics
             ∧ wildcard_match (split topic) (split p) = true).
Proof.
  revert acc. induction wildcard_topics as [|x rest IH]; intros acc; simpl.
  - split; [by left | intros [?|[H _]]; [done | by apply elem_of_nil in H]].
  - rewrite IH. destruct (wildcard_match (split topic) (split x)) eqn:Hx.
    + rewrite elem_of_app, list_elem_of_singleton, elem_of_cons.
      split.
      * intros [[?| ->]|[? ?]]; eauto.
      * intros [?|[[->|?] ?]]; eauto.
    + rewrite elem_of_cons. split.
      * intros [?|[? ?]]; eauto.
      * intros [?|[[->|?] ?]]; eauto. congruence.
Qed.

(** What [topic_search] returns, as a membership test. *)
Lemma topic_search_elem w topic (topics : gmap string (list Handler)) p :
  p ∈ topic_search w topic topics ↔
  (p = topic ∧ is_Some (topics !! topic))
  ∨ (p ∈ message_handlers_wildcard_topics (private w)
     ∧ wildcard_match (split topic) (split p) = true).
Proof.
  unfold topic_search. rewrite topic_search_loop_elem.
  case_bool_decide as Hin.
  - rewrite list_elem_of_singleton.
    split; [intros [->|?]; [by left | by right]|].
    intros [[-> _]|?]; [by left | by right].
  - split; [intros [H|?]; [by apply elem_of_nil in H | by right]|].
    intros [[_ ?]|?]; [done | by right].
Qed.

Lemma wildcard_match_refl p : wildcard_match (split p) (split p) = true.
Proof.
  unfold wildcard_match. case_bool_decide.
  - by apply bool_decide_eq_true.
  - apply andb_true_iff. split; by apply bool_decide_eq_true.
Qed.

(** A pattern that ends in [#] is matched by comparing both token lists
    without their last element. *)
Lemma hash_pattern_match w topic p :
  p ∈ message_handlers_wildcard_topics (private w) →
  last (split p) = Some "#" →
  p ∈ topic_search w topic (message_handlers (private w)) ↔
  removelast (split topic) = removelast (split p).
Proof.
  intros Hp Hlast. rewrite topic_search_elem. split.
  - intros [[-> _]|[_ Hm]]; [done|].
    unfold wildcard_match in Hm. rewrite bool_decide_eq_true_2 in Hm by done.
    by apply bool_decide_eq_true in Hm.
  - intros Heq. right. split; [done|]. unfold wildcard_match.
    rewrite bool_decide_eq_true_2 by done. by apply bool_decide_eq_true.
Qed.

(** C1. The router on the pattern [ns/#], registered through
    [add_message_handler]: the topics [ns/a/b/state] and [ns] start with the
    segments before the [#], and [topic_search] reports no match for either;
    it matches [ns/a], which has exactly one segment after [ns]. *)
Theorem hash_pattern_misses_other_depths :
  let w := snd (add_message_handler 1 "ns/#" (initial "ns/host/1")) in
  "ns/#" ∈ message_handlers_wildcard_topics (private w)
  ∧ last (split "ns/#") = Some "#"
  ∧ removelast (split "ns/#") `prefix_of` split "ns/a/b/state"
  ∧ topic_search w "ns/a/b/state" (message_handlers (private w)) = []
  ∧ removelast (split "ns/#") `prefix_of` split "ns"
  ∧ topic_search w "ns" (message_handlers (private w)) = []
  ∧ topic_search w "ns/a" (message_handlers (private w)) = ["ns/#"].
Proof.
  cbv zeta. split; [vm_compute; by left|]. split; [done|].
  split; [by exists ["a"; "b"; "state"]|]. split; [by vm_compute|].
  split; [by exists []|]. split; by vm_compute.
Qed.

(** C2, as stated, fails: the registered pattern [ns/+/+/state] has four
    segments, the topic [ns/state] has two, and the router matches them. *)
Lemma plus_pattern_ignores_inner_segments :
  ¬ (∀ w topic p,
       p ∈ message_handlers_wildcard_topics (private w) →
       contains "+" p = true →
       p ∈ topic_search w topic (message_handlers (private w)) ↔
       spec_plus_match (split p) (split topic)).
Proof.
  intros H.
  specialize (H (snd (add_message_handler 1 "ns/+/+/state" (initial "ns/host/1")))
                "ns/state" "ns/+/+/state").
  destruct H as [H _]; [vm_compute; by left | done |].
  assert (Hlen : length (split "ns/+/+/state") = length (split "ns/state")).
  { eapply Forall2_length, H. vm_compute. by left. }
  vm_compute in Hlen. discriminate.
Qed.

(** C2, amended: for a registered wildcard pattern whose last segment is
    not [#], the router reports a match exactly when the topic and the
    pattern have equal first segments and equal last segments. *)
Theorem plus_pattern_match w topic p :
  p ∈ message_handlers_wildcard_topics (private w) →
  last (split p) ≠ Some "#" →
  p ∈ topic_search w topic (message_handlers (private w)) ↔
  head (split topic) = head (split p) ∧ last (split topic) = last (split p).
Proof.
  intros Hp Hlast. rewrite topic_search_elem. split.
  - intros [[-> _]|[_ Hm]]; [done|].
    unfold wildcard_match in Hm. rewrite bool_decide_eq_false_2 in Hm by done.
    apply andb_true_iff in Hm as [H1 H2].
    by apply bool_decide_eq_true in H1, H2.
  - intros [H1 H2]. right. split; [done|]. unfold wildcard_match.
    rewrite bool_decide_eq_false_2 by done.
    apply andb_true_iff. split; by apply bool_decide_eq_true.
Qed.

Lemma plus_pattern_match_witness :
  let w := snd (add_message_handler 1 "ns/+/+/state" (initial "ns/host/1")) in
  "ns/+/+/state" ∈ topic_search w "ns/a/b/state" (message_handlers (private w))
  ↔ head (split "ns/a/b/state") = head (split "ns/+/+/state")
    ∧ last (split "ns/a/b/state") = last (split "ns/+/+/state").
Proof.
  cbv zeta.
  apply (plus_pattern_match
           (snd (add_message_handler 1 "ns/+/+/state" (initial "ns/host/1")))
           "ns/a/b/state" "ns/+/+/state").
  - vm_compute. by left.
  - vm_compute. discriminate.
Defined.

End Matching.

(** ** Dispatch *)

Section DispatchFacts.

Variable handler_call : Handler → string → string → M World bool.
Variable format_exc : exn → string.

Local Abbreviation invoke_handlers :=
  (Framework.invoke_handlers handler_call format_exc).
Local Abbreviation message_queue_handler :=
  (Framework.message_queue_handler handler_call format_exc).

(** The handlers called are the start of the handler list, in its order. *)
Lemma invoke_handlers_called hs t p called w :
  ∃ k, (invoke_handlers hs t p called w).1.2 = called ++ take k hs.
Proof.
  revert called w. induction hs as [|h rest IH]; intros called w; simpl.
  - exists 0. by rewrite app_nil_r.
  - destruct (handler_call h t p w) as [[[]|e] w'].
    + exists 1. done.
    + destruct (IH (called ++ [h]) w') as [k Hk]. exists (S k).
      rewrite Hk. by rewrite <- app_assoc.
    + destruct (is_Exception e); cbv iota.
      * destruct (IH (called ++ [h]) (print (format_exc e) w').2) as [k Hk].
        exists (S k). simpl in Hk |- *. rewrite Hk. by rewrite <- app_assoc.
      * exists 1. done.
Qed.

(** When the loop runs to its end, it has called every handler. *)
Lemma invoke_handlers_fell_through hs t p called w called' w' :
  invoke_handlers hs t p called w = (Return false, called', w') →
  called' = called ++ hs.
Proof.
  revert called w. induction hs as [|h rest IH]; intros called w; simpl.
  - intros [= <- _]. by rewrite app_nil_r.
  - destruct (handler_call h t p w) as [[[]|e] w1]; [done| |].
    + intros H%IH. by rewrite H, <- app_assoc.
    + destruct (is_Exception e); [|done].
      intros H%IH. by rewrite H, <- app_assoc.
Qed.

Lemma invoke_handlers_app hs1 hs2 t p called w :
  invoke_handlers (hs1 ++ hs2) t p called w =
  match invoke_handlers hs1 t p called w with
  | (Return false, called', w') => invoke_handlers hs2 t p called' w'
  | other => other
  end.
Proof.
  revert called w. induction hs1 as [|h rest IH]; intros called w; simpl.
  - done.
  - destruct (handler_call h t p w) as [[[]|e] w1]; [done|apply IH|].
    destruct (is_Exception e); [apply IH|done].
Qed.

(** The handler list is the concatenation of the entries of the matched
    topics, in the order of the matched topics. *)
Lemma extend_handlers_concat w topics_matched acc hs :
  extend_handlers w topics_matched acc = Return hs →
  hs = acc ++ concat ((λ t, default [] (message_handlers (private w) !! t))
                        <$> topics_matched).
Proof.
  revert acc. induction topics_matched as [|t rest IH]; intros acc; simpl.
  - intros [= <-]. by rewrite app_nil_r.
  - destruct (message_handlers (private w) !! t) as [l|]; [|done].
    intros H%IH. by rewrite H, <- app_assoc.
Qed.

End DispatchFacts.

(** C7, as stated, fails: handler 1 is registered first, on [ns/#], and
    returns true; handler 2 is registered after it, on [ns/x]; for a message
    on [ns/x] the router calls handler 2, and calls it before handler 1. *)
Lemma dispatch_not_in_registration_order :
  ¬ (∀ (handler_call : Handler → string → string → M World bool)
       (format_exc : exn → string) registrations message h1 h2,
       registered_before registrations h1 h2 →
       (∀ t p w, (handler_call h1 t p w).1 = Return true) →
       let w := register_all registrations (connected "ns/host/1") in
       let called := (message_queue_handler handler_call format_exc message w).1.2 in
       h1 ∈ called → h2 ∉ called).
Proof.
  intros H.
  specialize (H (λ h _ _, ret (bool_decide (h = 1))) (λ _, "")
                [(1, "ns/#"); (2, "ns/x")] (mkMessage "ns/x" (Some "(x)")) 1 2).
  apply H.
  - exists 0, 1, "ns/#", "ns/x". split; [lia|done].
  - done.
  - vm_compute. apply list_elem_of_In. simpl. auto.
  - vm_compute. apply list_elem_of_In. simpl. auto.
Qed.

Section DispatchOrder.

Variable handler_call : Handler → string → string → M World bool.
Variable format_exc : exn → string.

Local Abbreviation invoke_handlers :=
  (Framework.invoke_handlers handler_call format_exc).
Local Abbreviation message_queue_handler :=
  (Framework.message_queue_handler handler_call format_exc).

Lemma message_queue_handler_unfold message payload_in w hs :
  payload message = Some payload_in →
  extend_handlers w
    (topic_search w (topic message) (message_handlers (private w))) [] =
    Return hs →
  message_queue_handler message w =
  match invoke_handlers hs (topic message) payload_in [] w with
  | (Return _, called, w') => (Return tt, called, w')
  | (Raise e, called, w') => (Raise e, called, w')
  end.
Proof.
  intros Hp Hhs. unfold Framework.message_queue_handler. rewrite Hp, Hhs.
  case_bool_decide as Hlen; [done|].
  destruct hs; [done | simpl in Hlen; lia].
Qed.

(** On any tables: the router calls the handlers in the order of its
    handler list (the entry of the exact topic, then the entries of the
    matching wildcard topics in the order of the wildcard list) and stops
    at the first handler that returns true: the handlers called are the
    list up to and including that handler, and none after it. *)
Theorem dispatch_stops_at_first_true message payload_in w hs :
  payload message = Some payload_in →
  extend_handlers w
    (topic_search w (topic message) (message_handlers (private w))) [] =
    Return hs →
  hs = concat ((λ t, default [] (message_handlers (private w) !! t))
                 <$> topic_search w (topic message) (message_handlers (private w)))
  ∧ (message_queue_handler message w).1.2 `prefix_of` hs
  ∧ ∀ pre h post called1 w1 w2,
      hs = pre ++ h :: post →
      invoke_handlers pre (topic message) payload_in [] w =
        (Return false, called1, w1) →
      handler_call h (topic message) payload_in w1 = (Return true, w2) →
      message_queue_handler message w = (Return tt, pre ++ [h], w2).
Proof.
  intros Hp Hhs. split; [by apply extend_handlers_concat in Hhs|].
  rewrite (message_queue_handler_unfold _ _ _ _ Hp Hhs). split.
  - destruct (invoke_handlers_called handler_call format_exc hs (topic message)
                payload_in [] w) as [k Hk].
    destruct (invoke_handlers hs (topic message) payload_in [] w)
      as [[[b|e] called] w']; simpl in *; subst called;
      exists (drop k hs); by rewrite take_drop.
  - intros pre h post called1 w1 w2 -> Hpre Hh.
    rewrite invoke_handlers_app, Hpre. simpl. rewrite Hh.
    by apply invoke_handlers_fell_through in Hpre as ->.
Qed.

(** C8: when a called handler raises an exception (an instance of
    [Exception]), the router prints the trace, does not raise it again and
    goes on with the handlers after it in the list, starting with the next
    one, from the state the failing handler left. *)
Theorem dispatch_continues_after_exception
  message payload_in w hs pre h post called1 w1 e w2 :
  payload message = Some payload_in →
  extend_handlers w
    (topic_search w (topic message) (message_handlers (private w))) [] =
    Return hs →
  hs = pre ++ h :: post →
  invoke_handlers pre (topic message) payload_in [] w =
    (Return false, called1, w1) →
  handler_call h (topic message) payload_in w1 = (Raise e, w2) →
  is_Exception e = true →
  let logged := (print (format_exc e) w2).2 in
  stdout logged = stdout w2 ++ [format_exc e]
  ∧ message_queue_handler message w =
    match invoke_handlers post (topic message) payload_in (pre ++ [h]) logged with
    | (Return _, called, w') => (Return tt, called, w')
    | (Raise e', called, w') => (Raise e', called, w')
    end
  ∧ (post = [] → message_queue_handler message w = (Return tt, pre ++ [h], logged))
  ∧ (∀ h' post', post = h' :: post' →
       pre ++ [h; h'] `prefix_of` (message_queue_handler message w).1.2).
Proof.
  intros Hp Hhs -> Hpre Hh He logged. split; [done|].
  assert (Hrun : message_queue_handler message w =
    match invoke_handlers post (topic message) payload_in (pre ++ [h]) logged with
    | (Return _, called, w') => (Return tt, called, w')
    | (Raise e', called, w') => (Raise e', called, w')
    end).
  { rewrite (message_queue_handler_unfold _ _ _ _ Hp Hhs).
    rewrite invoke_handlers_app, Hpre. simpl. rewrite Hh, He.
    by apply invoke_handlers_fell_through in Hpre as ->. }
  split; [done|]. split.
  - intros ->. by rewrite Hrun.
  - intros h' post' ->. rewrite Hrun.
    destruct (invoke_handlers_called handler_call format_exc (h' :: post')
                (topic message) payload_in (pre ++ [h]) logged) as [k Hk].
    assert (Hk' : ∃ l, (invoke_handlers (h' :: post') (topic message)
                          payload_in (pre ++ [h]) logged).1.2
                       = (pre ++ [h; h']) ++ l).
    { clear Hk. simpl.
      destruct (handler_call h' (topic message) payload_in logged)
        as [[[]|e'] w3].
      - exists []. simpl. by rewrite app_nil_r, <- app_assoc.
      - destruct (invoke_handlers_called handler_call format_exc post'
                    (topic message) payload_in ((pre ++ [h]) ++ [h']) w3)
          as [j Hj].
        exists (take j post'). rewrite Hj. by rewrite <- !app_assoc.
      - destruct (is_Exception e').
        + destruct (invoke_handlers_called handler_call format_exc post'
                      (topic message) payload_in ((pre ++ [h]) ++ [h'])
                      (print (format_exc e') w3).2) as [j Hj].
          exists (take j post'). simpl in Hj. rewrite Hj.
          by rewrite <- !app_assoc.
        + exists []. simpl. by rewrite app_nil_r, <- app_assoc. }
    destruct Hk' as [l Hl].
    destruct (invoke_handlers (h' :: post') (topic message) payload_in
                (pre ++ [h]) logged) as [[[b|e'] called] w'];
      simpl in Hl |- *; subst called; by exists l.
Qed.

(** If every call returns false or raises an [Exception], every handler of
    the list is called. *)
Lemma invoke_handlers_all_called hs t p called w :
  (∀ h w0, h ∈ hs →
     match (handler_call h t p w0).1 with
     | Return b => b = false
     | Raise e => is_Exception e = true
     end) →
  (invoke_handlers hs t p called w).1 = (Return false, called ++ hs).
Proof.
  revert called w. induction hs as [|h rest IH]; intros called w Hall; simpl.
  - by rewrite app_nil_r.
  - pose proof (Hall h w (list_elem_of_here _ _)) as Hh.
    destruct (handler_call h t p w) as [[b|e] w1]; simpl in Hh.
    + subst b. rewrite IH; [by rewrite <- app_assoc|].
      intros h0 w0 ?. apply Hall. by right.
    + rewrite Hh. rewrite IH; [by rewrite <- app_assoc|].
      intros h0 w0 ?. apply Hall. by right.
Qed.

End DispatchOrder.

Lemma dispatch_continues_after_exception_witness :
  let handler_call : Handler → string → string → M World bool :=
    λ h _ _, if bool_decide (h = 2) then raise RuntimeError else ret false in
  let w := register_all [(1, "ns/#"); (2, "ns/x")] (connected "ns/host/1") in
  message_queue_handler handler_call (λ _, "Traceback")
    (mkMessage "ns/x" (Some "(x)")) w
  = (Return tt, [2; 1], (print "Traceback" w).2).
Proof.
  cbv zeta.
  set (w := register_all [(1, "ns/#"); (2, "ns/x")] (connected "ns/host/1")).
  set (handler_call :=
         (λ h _ _, if bool_decide (h = 2) then raise RuntimeError else ret false)
         : Handler → string → string → M World bool).
  assert (Hhs : extend_handlers w
                  (topic_search w "ns/x" (message_handlers (private w))) [] =
                Return [2; 1]) by (by vm_compute).
  destruct (dispatch_continues_after_exception handler_call (λ _, "Traceback")
              (mkMessage "ns/x" (Some "(x)")) "(x)" w [2; 1] [] 2 [1] [] w
              RuntimeError w eq_refl Hhs eq_refl eq_refl eq_refl eq_refl)
    as (_ & Hrun & _).
  rewrite Hrun. reflexivity.
Defined.

Lemma dispatch_stops_at_first_true_witness :
  let handler_call : Handler → string → string → M World bool :=
    λ h _ _, ret (bool_decide (h = 2)) in
  let w := register_all [(1, "ns/#"); (2, "ns/x")] (connected "ns/host/1") in
  message_queue_handler handler_call (λ _, "") (mkMessage "ns/x" (Some "(x)")) w
  = (Return tt, [2], w).
Proof.
  cbv zeta.
  set (w := register_all [(1, "ns/#"); (2, "ns/x")] (connected "ns/host/1")).
  set (handler_call := (λ h _ _, ret (bool_decide (h = 2)))
                        : Handler → string → string → M World bool).
  assert (Hhs : extend_handlers w
                  (topic_search w "ns/x" (message_handlers (private w))) [] =
                Return [2; 1]) by (by vm_compute).
  destruct (dispatch_stops_at_first_true handler_call (λ _, "")
              (mkMessage "ns/x" (Some "(x)")) "(x)" w [2; 1] eq_refl Hhs)
    as (_ & _ & Hstop).
  apply (Hstop [] 2 [1] [] w w); reflexivity.
Defined.

(** ** Registration and unregistration *)

Section Registration.

Implicit Types (w : World) (h : Handler) (topic : string).

(** What one registration does to the two tables. *)
Lemma add_message_handler_tables w h topic :
  let w' := (add_message_handler h topic w).2 in
  message_handlers (private w') =
    <[topic := default [] (message_handlers (private w) !! topic) ++ [h]]>
      (message_handlers (private w))
  ∧ message_handlers_wildcard_topics (private w') =
    message_handlers_wildcard_topics (private w)
    ++ (if bool_decide (is_Some (message_handlers (private w) !! topic))
        then []
        else if contains "#" topic || contains "+" topic then [topic] else []).
Proof.
  unfold add_message_handler, bind, get, when, message_truthy, message_call.
  simpl.
  destruct (message_handlers (private w) !! topic) as [hs|] eqn:Hh; simpl.
  - rewrite Hh. simpl.
    destruct (message (public w)) eqn:Hm; simpl; rewrite ?Hm; simpl;
      by rewrite app_nil_r.
  - destruct (contains "#" topic || contains "+" topic); simpl;
      rewrite lookup_insert_eq; simpl;
      destruct (message (public w)) eqn:Hm; simpl; rewrite ?Hm; simpl;
      by rewrite ?insert_insert_eq, ?app_nil_r.
Qed.

Lemma add_message_handler_consistent w h topic :
  registry_consistent w →
  registry_consistent (add_message_handler h topic w).2.
Proof.
  intros Hw t.
  destruct (add_message_handler_tables w h topic) as [-> ->].
  rewrite elem_of_app. intros [Ht|Ht].
  - destruct (decide (topic = t)) as [->|Hne].
    + rewrite lookup_insert_eq. by eexists.
    + rewrite lookup_insert_ne by done. by apply Hw.
  - assert (t = topic) as ->.
    { case_bool_decide; [by apply elem_of_nil in Ht|].
      destruct (contains "#" topic || contains "+" topic);
        [by apply list_elem_of_singleton in Ht | by apply elem_of_nil in Ht]. }
    rewrite lookup_insert_eq. by eexists.
Qed.

Lemma register_all_consistent registrations w :
  registry_consistent w → registry_consistent (register_all registrations w).
Proof.
  revert w. induction registrations as [|[h t] rest IH]; intros w Hw; [done|].
  simpl. apply IH. by apply add_message_handler_consistent.
Qed.

(** In a consistent registry the handler list of a message is always
    built: no [KeyError]. *)
Lemma extend_handlers_total w (topics_matched : list string) acc :
  (∀ t, t ∈ topics_matched → is_Some (message_handlers (private w) !! t)) →
  ∃ hs, extend_handlers w topics_matched acc = Return hs.
Proof.
  revert acc. induction topics_matched as [|t rest IH]; intros acc Hall; simpl.
  - by eexists.
  - destruct (Hall t (list_elem_of_here _ _)) as [hs ->].
    apply IH. intros t' ?. apply Hall. by right.
Qed.

Lemma handler_list_total w topic :
  registry_consistent w →
  ∃ hs, extend_handlers w
          (topic_search w topic (message_handlers (private w))) [] = Return hs.
Proof.
  intros Hw. apply extend_handlers_total. intros t Ht.
  apply topic_search_elem in Ht as [[-> ?]|[? _]]; [done|by apply Hw].
Qed.

(** X9. Removing the last handler of a topic outside the wildcard list
    deletes the entry and unsubscribes. *)
Lemma remove_last_exact_handler w h topic calls :
  message_handlers (private w) !! topic = Some [h] →
  topic ∉ message_handlers_wildcard_topics (private w) →
  message (public w) = Some calls →
  remove_message_handler h topic w =
  (Return tt,
   set_public (set_message (Some (calls ++ [unsubscribe topic])))
     (set_private (set_message_handlers (delete topic (message_handlers (private w)))) w)).
Proof.
  intros Hh Hwild Hmsg. unfold remove_message_handler, bind, get. simpl.
  rewrite Hh. unfold list_in.
  rewrite (bool_decide_eq_true_2 (h ∈ [h])) by apply list_elem_of_here.
  simpl. rewrite decide_True by done. simpl.
  unfold message_truthy, message_call. simpl. rewrite Hmsg.
  rewrite bool_decide_eq_true_2 by (by eexists). simpl. rewrite Hmsg. simpl.
  rewrite bool_decide_eq_false_2 by done. simpl.
  unfold ret, set_public, set_private, set_message_handlers, set_message. simpl.
  by rewrite delete_insert_eq.
Qed.

(** For a topic of the wildcard list the last statement always runs, and
    it raises; the wildcard list is left as it was. *)
Lemma remove_wildcard_handler_raises w h topic :
  is_Some (message_handlers (private w) !! topic) →
  topic ∈ message_handlers_wildcard_topics (private w) →
  (remove_message_handler h topic w).1 = Raise TypeError
  ∧ message_handlers_wildcard_topics (private (remove_message_handler h topic w).2)
    = message_handlers_wildcard_topics (private w).
Proof.
  intros [hs Hh] Hwild.
  assert (Hin : list_in topic (message_handlers_wildcard_topics (private w)) = true)
    by (by apply bool_decide_eq_true).
  unfold remove_message_handler, bind, get, message_truthy, message_call.
  simpl. rewrite Hh. simpl.
  set (hs' := if list_in h hs then list_remove h hs else hs).
  destruct (bool_decide (length hs' = 0)); simpl.
  - destruct (message (public w)) as [calls|] eqn:Hm; simpl;
      rewrite ?Hm; simpl; by rewrite Hin.
  - by rewrite Hin.
Qed.

(** C10. The only handler of the wildcard pattern [ns/#] is removed:
    [remove_message_handler] raises [TypeError]; the entry is deleted and
    the transport unsubscribed, and the pattern is still in the wildcard
    list.  With a second handler left on the pattern it raises as well. *)
Theorem remove_wildcard_pattern_raises :
  let w := register_all [(1, "ns/#")] (connected "ns/host/1") in
  let r := remove_message_handler 1 "ns/#" w in
  let w2 := register_all [(1, "ns/#"); (2, "ns/#")] (connected "ns/host/1") in
  let r2 := remove_message_handler 1 "ns/#" w2 in
  r.1 = Raise TypeError
  ∧ message_handlers (private r.2) !! "ns/#" = None
  ∧ message (public r.2) = Some [subscribe "ns/#"; unsubscribe "ns/#"]
  ∧ message_handlers_wildcard_topics (private r.2) = ["ns/#"]
  ∧ r2.1 = Raise TypeError
  ∧ message_handlers (private r2.2) !! "ns/#" = Some [2].
Proof. cbv zeta. repeat split; by vm_compute. Qed.

(** After that removal a message for the pattern stops the router with a
    [KeyError]: the wildcard list names a topic that has no entry. *)
Lemma dispatch_after_wildcard_removal :
  let w := register_all [(1, "ns/#")] (connected "ns/host/1") in
  let r := remove_message_handler 1 "ns/#" w in
  (message_queue_handler (λ _ _ _, ret false) (λ _, "")
     (mkMessage "ns/x" (Some "(x)")) r.2).1 = (Raise KeyError, []).
Proof. by vm_compute. Qed.

End Registration.

(** ** Registrar protocol *)

Section RegistrarFacts.

Variable parse : string → result (Sexp * list Sexp).
Variable get_username : string.
Variable registrar_handler_call :
  Handler → option Sexp → gmap string Sexp → M World bool.

Local Abbreviation on_registrar_message :=
  (Framework.on_registrar_message parse get_username registrar_handler_call).
Local Abbreviation registrar_handler_block :=
  (Framework.registrar_handler_block registrar_handler_call).

Lemma sexp_is_true value text :
  sexp_is value text = true → value = Some (Atom text).
Proof.
  destruct value as [[s|l]|]; simpl; try done.
  by intros ->%bool_decide_eq_true.
Qed.

(** [parse_okay] is set for the two shapes and for nothing else. *)
Lemma registrar_parse_okay command parameters :
  (registrar_parse command parameters).2 = true →
  command = Atom "primary"
  ∧ ((∃ p1 p2, parameters = [Atom "started"; p1; p2])
     ∨ parameters = [Atom "stopped"]).
Proof.
  unfold registrar_parse.
  case_bool_decide as Hlen; [|done].
  destruct (sexp_is (Some command) "primary") eqn:Hcmd; [|done].
  apply sexp_is_true in Hcmd as [= ->].
  destruct parameters as [|a [|p1 [|p2 [|p3 rest]]]]; simpl in *; try lia.
  - destruct a as [s|l]; [|done]. case_bool_decide as Hs; [|done].
    subst s. intros _. split; [done|by right].
  - destruct a as [s|l]; [|done]. case_bool_decide as Hs; [|done].
    subst s. intros _. split; [done|]. left. by exists p1, p2.
Qed.

(** C3: on [(primary started <topic_path> <timestamp>)], with a protocol
    set on this actor and the transport client in place, the actor
    publishes its [add] announcement to [<topic_path>/in], records
    [<topic_path>] as the registrar topic path and moves the connection to
    [REGISTRAR]; the registrar handler, if one is set, runs after that. *)
Theorem on_registrar_message_started
  w topic payload_in registrar_topic_path timestamp own_protocol calls :
  parse payload_in =
    Return (Atom "primary", [Atom "started"; Atom registrar_topic_path; timestamp]) →
  protocol (public w) = Some own_protocol →
  own_protocol ≠ "" →
  message (public w) = Some calls →
  let payload_out :=
    "(add " +:+ topic_path (public w) +:+ " " +:+ own_protocol +:+ " "
    +:+ transport (public w) +:+ " " +:+ get_username
    +:+ " (" +:+ join " " (tags (public w)) +:+ "))" in
  let announced := calls ++ [publish (registrar_topic_path +:+ "/in") payload_out] in
  let registrar : gmap string Sexp :=
    <["timestamp" := timestamp]> (<["topic_path" := Atom registrar_topic_path]> ∅) in
  let w' :=
    set_public (set_connection REGISTRAR)
      (set_public (set_topic_path_registrar (Some (Atom registrar_topic_path)))
         (set_public (set_message (Some announced)) w)) in
  message (public w') = Some announced
  ∧ topic_path_registrar (public w') = Some (Atom registrar_topic_path)
  ∧ connection (public w') = REGISTRAR
  ∧ on_registrar_message topic payload_in w =
    registrar_handler_block (Some (Atom "started")) registrar w'
  ∧ (registrar_handler (private w) = None →
     on_registrar_message topic payload_in w = (Return tt, w')).
Proof.
  intros Hparse Hproto Hne Hmsg payload_out announced registrar w'.
  split; [done|]. split; [done|]. split; [done|].
  assert (Hrun : on_registrar_message topic payload_in w =
                 registrar_handler_block (Some (Atom "started")) registrar w').
  { unfold Framework.on_registrar_message. rewrite Hparse. simpl.
    unfold bind, get, when, protocol_truthy. simpl. rewrite Hproto.
    rewrite bool_decide_eq_false_2 by done. simpl.
    rewrite lookup_insert_ne by done. rewrite lookup_insert_eq.
    unfold message_call. rewrite Hmsg. simpl.
    unfold announcement. rewrite Hproto. done. }
  split; [done|]. intros Hnone. rewrite Hrun.
  unfold Framework.registrar_handler_block, bind, get. simpl.
  by rewrite Hnone.
Qed.

(** C4: on [(primary stopped)] the recorded registrar topic path is
    cleared and the connection moves to [TRANSPORT]; with
    [terminate_registrar_not_found] set, and only then, the exit status
    becomes 1 and the event loop is told to terminate; the registrar
    handler, if one is set, runs after that. *)
Theorem on_registrar_message_stopped w topic payload_in :
  parse payload_in = Return (Atom "primary", [Atom "stopped"]) →
  let w1 :=
    set_public (set_connection TRANSPORT)
      (set_public (set_topic_path_registrar None) w) in
  let w' :=
    if terminate_registrar_not_found (public w)
    then (terminate 1 w1).2 else w1 in
  topic_path_registrar (public w') = None
  ∧ connection (public w') = TRANSPORT
  ∧ (terminate_registrar_not_found (public w) = true →
     exit_status (private w') = 1%Z ∧ event_terminated w' = true)
  ∧ (terminate_registrar_not_found (public w) = false →
     exit_status (private w') = exit_status (private w)
     ∧ event_terminated w' = event_terminated w)
  ∧ on_registrar_message topic payload_in w =
    registrar_handler_block (Some (Atom "stopped")) ∅ w'
  ∧ (registrar_handler (private w) = None →
     on_registrar_message topic payload_in w = (Return tt, w')).
Proof.
  intros Hparse w1 w'.
  assert (Hrun : on_registrar_message topic payload_in w =
                 registrar_handler_block (Some (Atom "stopped")) ∅ w').
  { unfold Framework.on_registrar_message. rewrite Hparse. simpl.
    unfold bind, get, when. simpl. subst w' w1.
    by destruct (terminate_registrar_not_found (public w)). }
  subst w' w1.
  destruct (terminate_registrar_not_found (public w)) eqn:Hflag.
  - repeat split; try done. intros Hnone. rewrite Hrun.
    unfold Framework.registrar_handler_block, bind, get. simpl.
    by rewrite Hnone.
  - repeat split; try done. intros Hnone. rewrite Hrun.
    unfold Framework.registrar_handler_block, bind, get. simpl.
    by rewrite Hnone.
Qed.

(** C5, amended: a payload that [parse] accepts and that is neither
    [primary] with three parameters of which the first is [started], nor
    [primary] with the one parameter [stopped], is ignored:
    [on_registrar_message] returns without an exception and the whole
    state (connection, registrar topic path, exit status, transport calls,
    output) is as before.  This holds for every registrar handler, also
    one that raises or changes the state, so none is called. *)
Theorem on_registrar_message_ignored w topic payload_in command parameters :
  parse payload_in = Return (command, parameters) →
  ¬ (command = Atom "primary"
     ∧ ((∃ p1 p2, parameters = [Atom "started"; p1; p2])
        ∨ parameters = [Atom "stopped"])) →
  on_registrar_message topic payload_in w = (Return tt, w).
Proof.
  intros Hparse Hshape. unfold Framework.on_registrar_message.
  rewrite Hparse.
  destruct (registrar_parse command parameters) as [[action registrar] okay]
    eqn:Hreg.
  destruct okay; [|done]. exfalso. apply Hshape.
  apply registrar_parse_okay. by rewrite Hreg.
Qed.

(** An exception of [parse] leaves [on_registrar_message] as it is, with
    the state untouched. *)
Lemma on_registrar_message_parse_raises w topic payload_in e :
  parse payload_in = Raise e →
  on_registrar_message topic payload_in w = (Raise e, w).
Proof.
  intros Hparse. unfold Framework.on_registrar_message. by rewrite Hparse.
Qed.

End RegistrarFacts.

(** The three scenarios of the registrar channel, run with the payload
    grammar of the specification. *)
Lemma on_registrar_message_started_witness :
  let w := (set_protocol (Some "proto") (connected "ns/host/1")).2 in
  let r := on_registrar_message spec_parse_result "me" (λ _ _ _, ret true)
             "ns/service/registrar" "(primary started reg/topic 12345)" w in
  r.1 = Return tt
  ∧ message (public r.2) =
    Some [publish "reg/topic/in" "(add ns/host/1 proto mqtt me ())"]
  ∧ topic_path_registrar (public r.2) = Some (Atom "reg/topic")
  ∧ connection (public r.2) = REGISTRAR.
Proof.
  cbv zeta.
  destruct (on_registrar_message_started spec_parse_result "me" (λ _ _ _, ret true)
              (set_protocol (Some "proto") (connected "ns/host/1")).2
              "ns/service/registrar" "(primary started reg/topic 12345)"
              "reg/topic" (Atom "12345") "proto" []
              eq_refl eq_refl ltac:(discriminate) eq_refl)
    as (_ & _ & _ & _ & Hnone).
  rewrite (Hnone eq_refl). repeat split.
Defined.

Lemma on_registrar_message_stopped_witness :
  let w := (set_terminate_registrar_not_found true (connected "ns/host/1")).2 in
  let r := on_registrar_message spec_parse_result "me" (λ _ _ _, ret true)
             "ns/service/registrar" "(primary stopped)" w in
  r.1 = Return tt
  ∧ topic_path_registrar (public r.2) = None
  ∧ connection (public r.2) = TRANSPORT
  ∧ exit_status (private r.2) = 1%Z
  ∧ event_terminated r.2 = true.
Proof.
  cbv zeta.
  destruct (on_registrar_message_stopped spec_parse_result "me" (λ _ _ _, ret true)
              (set_terminate_registrar_not_found true (connected "ns/host/1")).2
              "ns/service/registrar" "(primary stopped)" eq_refl)
    as (_ & _ & _ & _ & _ & Hnone).
  rewrite (Hnone eq_refl). repeat split.
Defined.

Lemma on_registrar_message_ignored_witness :
  let w := (set_registrar_handler (Some 7)
              (set_protocol (Some "proto") (connected "ns/host/1")).2).2 in
  on_registrar_message spec_parse_result "me" (λ _ _ _, raise RuntimeError)
    "ns/service/registrar" "(primary started reg/topic)" w = (Return tt, w).
Proof.
  cbv zeta.
  apply (on_registrar_message_ignored spec_parse_result "me"
           (λ _ _ _, raise RuntimeError) _ "ns/service/registrar"
           "(primary started reg/topic)" (Atom "primary")
           [Atom "started"; Atom "reg/topic"]).
  - by vm_compute.
  - intros [_ [(p1 & p2 & [=])|[=]]].
Defined.

(** C5, as stated, fails: [(primary started (reg topic) 12345)] is not of
    the shape [(primary started <topic_path> <timestamp>)], its topic path
    being a list, and it is not ignored: the list is recorded as registrar
    topic path and the connection moves to [REGISTRAR]. *)
Lemma on_registrar_message_list_topic_path :
  ¬ (∀ (parse : string → result (Sexp * list Sexp)) get_username
       registrar_handler_call w topic payload_in,
       (∀ topic_path timestamp,
          parse payload_in ≠
          Return (Atom "primary",
                  [Atom "started"; Atom topic_path; Atom timestamp])) →
       parse payload_in ≠ Return (Atom "primary", [Atom "stopped"]) →
       on_registrar_message parse get_username registrar_handler_call
         topic payload_in w = (Return tt, w)).
Proof.
  intros H.
  assert (Heq : on_registrar_message spec_parse_result "me" (λ _ _ _, ret true)
                  "ns/service/registrar" "(primary started (reg topic) 12345)"
                  (initial "ns/host/1") = (Return tt, initial "ns/host/1")).
  { apply H.
    - intros topic_path timestamp. vm_compute. discriminate.
    - vm_compute. discriminate. }
  apply (f_equal (λ r, connection (public r.2))) in Heq.
  vm_compute in Heq. discriminate.
Qed.


(** ** Message invocation *)

Import Actor.

Section ActorFacts.

Variables Arg Heap : Type.
Variable str_arguments : list Arg → string.
Variable str_exn : exn → string.
Variable accepts : Callable → nat → bool.
Variable body : Callable → list Arg → M (World Heap) unit.

Local Abbreviation repr := (Actor.repr Arg str_arguments).
Local Abbreviation call := (Actor.call Arg Heap accepts body).
Local Abbreviation invoke :=
  (Actor.invoke Arg Heap str_arguments str_exn accepts body).
Local Abbreviation log := (logger_call Heap).

Implicit Types (self : Message Arg) (w : World Heap).

Local Abbreviation after_debug self w :=
  (debug_line Arg Heap str_arguments self w).2.

(** A string command that is no attribute of the target, with no handler
    given, resolves to [None]; a found attribute is what [invoke] settles
    on. *)
Lemma resolve_missing_command self name :
  target_function Arg self = VNone →
  command Arg self = CommandStr name →
  attributes (target_object Arg self) !! name = None →
  resolve Arg self = Return VNone.
Proof. unfold resolve. by intros -> -> ->. Qed.

Lemma resolve_attribute self name attribute :
  target_function Arg self = VNone →
  command Arg self = CommandStr name →
  attributes (target_object Arg self) !! name = Some attribute →
  resolve Arg self = Return attribute.
Proof. unfold resolve. by intros -> -> ->. Qed.

Lemma settles_on_resolve self v :
  settles_on Arg self v → resolve Arg self = Return v.
Proof.
  unfold resolve.
  intros [Htruthy|name attribute Hfalsy Hcmd Hattr|name Hfalsy Hcmd Hattr].
  - by rewrite Htruthy.
  - by rewrite Hfalsy, Hcmd, Hattr.
  - by rewrite Hfalsy, Hcmd, Hattr.
Qed.

Lemma invoke_unfold self w :
  invoke self w =
  match resolve Arg self with
  | Raise e => (Raise e, after_debug self w)
  | Return VNone =>
      log ERROR (repr self +:+ ": Function not found in: "
                 +:+ object_str (target_object Arg self)) (after_debug self w)
  | Return (VObject _ None) =>
      log ERROR (repr self +:+ ": isn't callable") (after_debug self w)
  | Return (VObject _ (Some f)) =>
      match call f (arguments Arg self) (after_debug self w) with
      | (Return _, w1) => (Return tt, w1)
      | (Raise e, w1) =>
          if is_TypeError e
          then log ERROR (repr self +:+ ": " +:+ str_exn e) w1
          else (Raise e, w1)
      end
  end.
Proof.
  unfold Actor.invoke, debug_line, bind, get, when, try_except, lift. simpl.
  destruct (debug_enabled Heap w) eqn:Hd; simpl; rewrite ?Hd;
    (destruct (resolve Arg self) as [[|b [f|]]|e0]; simpl; [done| |done|done]);
    (destruct (Actor.call _ _ _ _ f _ _) as [[[]|e] w1]; simpl; [done|]);
    by destruct (is_TypeError e).
Qed.

(** C6, amended: [invoke] and its three resolution failures, for what the
    message and its target make [invoke] settle on.  [None] (no handler
    given and no attribute of the command's name, or the attribute is
    [None]) and an object that is not callable each end in a normal return
    with one [ERROR] record added to the log and nothing else changed.
    For a callable there is one call: when the arguments do not bind, the
    [TypeError] ends in a normal return, one [ERROR] record, nothing else
    changed; a [TypeError] from inside the body ends the same way on the
    state the body left, so what the body did before it raised remains;
    another exception of the body reaches the caller; a body that returns
    leaves exactly its own state, with nothing logged. *)
Theorem invoke_resolution_failures self w v :
  settles_on Arg self v →
  let w0 := after_debug self w in
  match v with
  | VNone =>
      invoke self w =
      (Return tt,
       (log ERROR (repr self +:+ ": Function not found in: "
                   +:+ object_str (target_object Arg self)) w0).2)
  | VObject _ None =>
      invoke self w =
      (Return tt, (log ERROR (repr self +:+ ": isn't callable") w0).2)
  | VObject _ (Some f) =>
      (accepts f (length (arguments Arg self)) = false →
       invoke self w =
       (Return tt,
        (log ERROR (repr self +:+ ": " +:+ str_exn TypeError) w0).2))
      ∧ (accepts f (length (arguments Arg self)) = true →
         (∀ e w1, body f (arguments Arg self) w0 = (Raise e, w1) →
            is_TypeError e = true →
            invoke self w =
            (Return tt, (log ERROR (repr self +:+ ": " +:+ str_exn e) w1).2))
         ∧ (∀ e w1, body f (arguments Arg self) w0 = (Raise e, w1) →
              is_TypeError e = false →
              invoke self w = (Raise e, w1))
         ∧ (∀ w1, body f (arguments Arg self) w0 = (Return tt, w1) →
              invoke self w = (Return tt, w1)))
  end.
Proof.
  intros Hv%settles_on_resolve w0. subst w0. rewrite invoke_unfold, Hv.
  destruct v as [|b [f|]]; [done| |done].
  unfold Actor.call. split.
  - by intros ->.
  - intros ->. split; [|split].
    + intros e w1 Hbody He. by rewrite Hbody, He.
    + intros e w1 Hbody He. by rewrite Hbody, He.
    + intros w1 Hbody. by rewrite Hbody.
Qed.

(** A command that is no string, with no handler given: the lookup raises
    [TypeError], which leaves [invoke] with only the debug line
    written. *)
Lemma invoke_command_not_a_string self w text :
  value_truthy (target_function Arg self) = false →
  command Arg self = CommandOther text →
  invoke self w = (Raise TypeError, after_debug self w).
Proof.
  intros Hfalsy Hcmd. rewrite invoke_unfold. unfold resolve.
  by rewrite Hfalsy, Hcmd.
Qed.

(** One log call adds one record and touches nothing else. *)
Lemma log_adds_one_record level text w :
  logger Heap (log level text w).2 = logger Heap w ++ [(level, text)]
  ∧ debug_enabled Heap (log level text w).2 = debug_enabled Heap w
  ∧ share Heap (log level text w).2 = share Heap w
  ∧ heap Heap (log level text w).2 = heap Heap w.
Proof. done. Qed.

(** ** The actor's run *)

Variable process_run : M (World Heap) unit.
Variable format_exc : exn → string.

Local Abbreviation run := (Actor.run Heap process_run format_exc).
Local Abbreviation set_share := (Actor.set_share Heap).

(** X27. [run] enters the loop with [running] set, and clears it when the
    loop returns. *)
Lemma run_normal_exit w w1 :
  process_run (set_share "running" (SBool true) w).2 = (Return tt, w1) →
  is_running Heap (set_share "running" (SBool true) w).2 = Some (SBool true)
  ∧ run w = (Return tt, (set_share "running" (SBool false) w1).2)
  ∧ is_running Heap (run w).2 = Some (SBool false).
Proof.
  intros Hloop. split; [apply lookup_insert_eq|].
  assert (Hrun : run w = (Return tt, (set_share "running" (SBool false) w1).2)).
  { unfold Actor.run, bind, try_except. simpl in *. by rewrite Hloop. }
  split; [done|]. rewrite Hrun. apply lookup_insert_eq.
Qed.

(** When an [Exception] leaves the loop, [run] logs the trace and raises
    it again; the [share] dictionary stays as the loop left it. *)
Lemma run_exception w e w1 :
  process_run (set_share "running" (SBool true) w).2 = (Raise e, w1) →
  is_Exception e = true →
  run w = (Raise e, (log ERROR (format_exc e) w1).2)
  ∧ share Heap (run w).2 = share Heap w1.
Proof.
  intros Hloop He.
  assert (Hrun : run w = (Raise e, (log ERROR (format_exc e) w1).2)).
  { unfold Actor.run, bind, try_except. simpl in *. by rewrite Hloop, He. }
  split; [done|]. by rewrite Hrun.
Qed.

End ActorFacts.

Lemma invoke_resolution_failures_witness :
  let str_arguments : list string → string := λ l, "[" +:+ join ", " l +:+ "]" in
  let target :=
    mkObject (<["name" := VObject true None]>
                {["test" := VObject true (Some 0)]}) "[actor]" in
  let w := mkWorld nat [] false ∅ 0 in
  let invoke :=
    Actor.invoke string nat str_arguments (λ _, "takes 1 argument")
      (λ _ n, bool_decide (n = 1)) (λ _ _, ret tt) in
  invoke (mkMessage string target (CommandStr "missing") ["1"] VNone) w
  = (Return tt,
     mkWorld nat [(ERROR, "Message: missing(1): Function not found in: [actor]")]
       false ∅ 0)
  ∧ invoke (mkMessage string target (CommandStr "name") ["1"] VNone) w
    = (Return tt,
       mkWorld nat [(ERROR, "Message: name(1): isn't callable")] false ∅ 0)
  ∧ invoke (mkMessage string target (CommandStr "test") [] VNone) w
    = (Return tt,
       mkWorld nat [(ERROR, "Message: test(): takes 1 argument")] false ∅ 0).
Proof.
  cbv zeta.
  set (target := mkObject (<["name" := VObject true None]>
                             {["test" := VObject true (Some 0)]}) "[actor]").
  set (m1 := mkMessage string target (CommandStr "missing") ["1"] VNone).
  set (m2 := mkMessage string target (CommandStr "name") ["1"] VNone).
  set (m3 := mkMessage string target (CommandStr "test") [] VNone).
  split; [|split].
  - apply (invoke_resolution_failures string nat
             (λ l, "[" +:+ join ", " l +:+ "]") (λ _, "takes 1 argument")
             (λ _ n, bool_decide (n = 1)) (λ _ _, ret tt)
             m1 (mkWorld nat [] false ∅ 0) VNone).
    exact (settles_on_missing string m1 "missing" eq_refl eq_refl
             ltac:(by vm_compute)).
  - apply (invoke_resolution_failures string nat
             (λ l, "[" +:+ join ", " l +:+ "]") (λ _, "takes 1 argument")
             (λ _ n, bool_decide (n = 1)) (λ _ _, ret tt)
             m2 (mkWorld nat [] false ∅ 0) (VObject true None)).
    exact (settles_on_attribute string m2 "name" (VObject true None)
             eq_refl eq_refl ltac:(by vm_compute)).
  - apply (proj1 (invoke_resolution_failures string nat
                    (λ l, "[" +:+ join ", " l +:+ "]") (λ _, "takes 1 argument")
                    (λ _ n, bool_decide (n = 1)) (λ _ _, ret tt)
                    m3 (mkWorld nat [] false ∅ 0) (VObject true (Some 0))
                    (settles_on_attribute string m3 "test"
                       (VObject true (Some 0))
                       eq_refl eq_refl ltac:(by vm_compute)))).
    reflexivity.
Defined.

(** C6, as stated, fails: a [TypeError] of the call does not always come
    with no other side effect.  The function found for the command adds
    one to the state and then raises [TypeError]; [invoke] returns
    normally with one diagnostic, and the state keeps the addition. *)
Lemma invoke_type_error_keeps_effects :
  ¬ (∀ (Arg Heap : Type) (str_arguments : list Arg → string)
       (str_exn : exn → string) (accepts : Callable → nat → bool)
       (body : Callable → list Arg → M (World Heap) unit)
       (self : Message Arg) (w : World Heap) name b f e w1,
       target_function Arg self = VNone →
       command Arg self = CommandStr name →
       attributes (target_object Arg self) !! name = Some (VObject b (Some f)) →
       Actor.call Arg Heap accepts body f (arguments Arg self)
         (debug_line Arg Heap str_arguments self w).2 = (Raise e, w1) →
       is_TypeError e = true →
       ∃ diagnostic,
         Actor.invoke Arg Heap str_arguments str_exn accepts body self w =
         (Return tt,
          (logger_call Heap ERROR diagnostic
             (debug_line Arg Heap str_arguments self w).2).2)).
Proof.
  intros H.
  set (body := (λ _ _, modify (λ w, mkWorld nat (logger nat w)
                                       (debug_enabled nat w) (share nat w)
                                       (S (heap nat w))) >>;
                        raise TypeError)
               : Callable → list string → M (World nat) unit).
  set (self := mkMessage string
                 (mkObject {["test" := VObject true (Some 0)]} "[actor]")
                 (CommandStr "test") [] VNone).
  set (w := mkWorld nat [] false ∅ 0).
  assert (Hd : ∃ diagnostic,
             Actor.invoke string nat (λ _, "[]") (λ _, "") (λ _ _, true) body
               self w =
             (Return tt,
              (logger_call nat ERROR diagnostic
                 (debug_line string nat (λ _, "[]") self w).2).2)).
  { apply (H string nat (λ _, "[]") (λ _, "") (λ _ _, true) body self w
             "test" true 0 TypeError (mkWorld nat [] false ∅ 1));
      by vm_compute. }
  destruct Hd as [diagnostic Hd].
  apply (f_equal (λ r, heap nat r.2)) in Hd. vm_compute in Hd. discriminate.
Qed.


(** C9. The event loop raises [RuntimeError]: [run] logs the trace and
    raises the exception again, and the [running] flag of the actor is
    still true. *)
Theorem run_exception_leaves_running_set :
  let w := mkWorld unit [] false
             (<["running" := SBool false]>
                (<["log_level" := SStr "INFO"]> {["lifecycle" := SStr "ready"]}))
             tt in
  let r := Actor.run unit (raise RuntimeError) (λ _, "Traceback") w in
  r.1 = Raise RuntimeError
  ∧ logger unit r.2 = [(ERROR, "Traceback")]
  ∧ is_running unit r.2 = Some (SBool true).
Proof. cbv zeta. repeat split; by vm_compute. Qed.

(** * Further properties of the code *)

(** ** Splitting and joining *)

Section SplitFacts.

Implicit Types (sep : ascii) (s t : string).

Lemma split_is_split_on s : split s = split_on "/" s.
Proof. induction s as [|c s IH]; simpl; [done|]. by rewrite IH. Qed.

Lemma split_on_nonempty sep s : split_on sep s ≠ [].
Proof.
  destruct s as [|c s]; simpl; [done|].
  case_bool_decide; [done|]. by destruct (split_on sep s).
Qed.

Lemma string_app_cons (c : ascii) s t : String c s +:+ t = String c (s +:+ t).
Proof. reflexivity. Qed.

Lemma string_app_assoc s t u : (s +:+ t) +:+ u = s +:+ (t +:+ u).
Proof.
  induction s as [|c s IH]; [done|]. by rewrite !string_app_cons, IH.
Qed.

Lemma split_on_join sep s : join (String sep "") (split_on sep s) = s.
Proof.
  induction s as [|c s IH]; simpl; [done|].
  pose proof (split_on_nonempty sep s) as Hne.
  case_bool_decide as Hc.
  - subst c. destruct (split_on sep s) as [|t ts]; [done|].
    simpl in IH |- *. by rewrite IH.
  - destruct (split_on sep s) as [|t ts]; [done|].
    destruct ts as [|t' ts]; simpl in IH |- *; by rewrite <- IH.
Qed.

Lemma split_on_segments sep s t :
  t ∈ split_on sep s → contains sep t = false.
Proof.
  revert t. induction s as [|c s IH]; simpl; intros t Ht.
  - apply list_elem_of_singleton in Ht as ->. done.
  - case_bool_decide as Hc.
    + apply elem_of_cons in Ht as [->|Ht]; [done|by apply IH].
    + pose proof (split_on_nonempty sep s) as Hne.
      destruct (split_on sep s) as [|t0 ts]; [done|].
      apply elem_of_cons in Ht as [->|Ht].
      * simpl. rewrite bool_decide_eq_false_2 by congruence. simpl.
        apply IH. by left.
      * apply IH. by right.
Qed.

Lemma split_on_length sep s :
  length (split_on sep s) = S (count_char sep s).
Proof.
  induction s as [|c s IH]; simpl; [done|].
  pose proof (split_on_nonempty sep s) as Hne.
  destruct (decide (c = sep)) as [->|Hc].
  - rewrite !bool_decide_eq_true_2 by done. simpl. by rewrite IH.
  - rewrite !bool_decide_eq_false_2 by congruence.
    destruct (split_on sep s) as [|t ts]; [done|]. simpl in *. lia.
Qed.

Lemma split_on_app sep s t :
  split_on sep (s +:+ String sep t) = split_on sep s ++ split_on sep t.
Proof.
  induction s as [|c s IH].
  - change ("" +:+ String sep t) with (String sep t). simpl.
    by rewrite bool_decide_eq_true_2.
  - rewrite string_app_cons. simpl. case_bool_decide; [by rewrite IH|].
    rewrite IH. pose proof (split_on_nonempty sep s) as Hne.
    by destruct (split_on sep s).
Qed.

Lemma split_on_no_separator sep s :
  contains sep s = false → split_on sep s = [s].
Proof.
  induction s as [|c s IH]; simpl; [done|].
  intros [Hc Hs]%orb_false_iff. apply bool_decide_eq_false in Hc.
  rewrite bool_decide_eq_false_2 by congruence. by rewrite IH.
Qed.

(** X1. Splitting a topic on [/] loses nothing: joining the segments with
    [/] gives the topic back, no segment contains a [/], and there is one
    segment more than there are slashes. *)
Theorem split_join_roundtrip s :
  join "/" (split s) = s
  ∧ (∀ t, t ∈ split s → contains "/" t = false)
  ∧ length (split s) = S (count_char "/" s).
Proof.
  rewrite split_is_split_on. split; [apply split_on_join|].
  split; [intros t; apply split_on_segments|apply split_on_length].
Qed.

End SplitFacts.

(** ** The router: matching *)

Section RouterMatching.

Implicit Types (w : Framework.World) (topic p : string).

Lemma topic_search_loop_filter topic (wildcard_topics acc : list string) :
  topic_search_loop topic wildcard_topics acc =
  acc ++ List.filter (λ p, wildcard_match (split topic) (split p)) wildcard_topics.
Proof.
  revert acc. induction wildcard_topics as [|x rest IH]; intros acc; simpl.
  - by rewrite app_nil_r.
  - rewrite IH. destruct (wildcard_match (split topic) (split x)); [|done].
    by rewrite <- app_assoc.
Qed.

Lemma topic_search_in_wildcard_order_aux w topic
  (topics : gmap string (list Handler)) :
  topic_search w topic topics =
  (if bool_decide (is_Some (topics !! topic)) then [topic] else [])
  ++ List.filter (λ p, wildcard_match (split topic) (split p))
       (message_handlers_wildcard_topics (private w)).
Proof. unfold topic_search. apply topic_search_loop_filter. Qed.

(** X2. The topics [topic_search] returns are the topic itself, when it is
    a key of the given dictionary, followed by the matching wildcard
    topics in the order of the wildcard list. *)
Theorem topic_search_in_wildcard_order w topic (topics : gmap string (list Handler)) :
  topic_search w topic topics =
  (if bool_decide (is_Some (topics !! topic)) then [topic] else [])
  ++ List.filter (λ p, wildcard_match (split topic) (split p))
       (message_handlers_wildcard_topics (private w)).
Proof. unfold topic_search. apply topic_search_loop_filter. Qed.

Lemma removelast_length {A} (l : list A) : length (removelast l) = length l - 1.
Proof.
  induction l as [|x [|y l] IH]; simpl in *; [done..|]. rewrite IH. lia.
Qed.

(** X3. A registered pattern that ends in [#] is reported for a topic
    exactly when topic and pattern agree on all segments but their last
    ones; so it is reported only for topics with as many segments as the
    pattern has. *)
Theorem hash_pattern_same_depth w topic p :
  p ∈ message_handlers_wildcard_topics (private w) →
  last (split p) = Some "#" →
  (p ∈ topic_search w topic (message_handlers (private w)) ↔
   removelast (split topic) = removelast (split p))
  ∧ (p ∈ topic_search w topic (message_handlers (private w)) →
     length (split topic) = length (split p)).
Proof.
  intros Hp Hlast.
  assert (Hiff : p ∈ topic_search w topic (message_handlers (private w)) ↔
                 removelast (split topic) = removelast (split p)).
  { rewrite topic_search_elem. split.
    - intros [[-> _]|[_ Hm]]; [done|]. unfold wildcard_match in Hm.
      rewrite bool_decide_eq_true_2 in Hm by done.
      by apply bool_decide_eq_true in Hm.
    - intros Heq. right. split; [done|]. unfold wildcard_match.
      rewrite bool_decide_eq_true_2 by done. by apply bool_decide_eq_true. }
  split; [done|]. intros Hin%Hiff.
  apply (f_equal length) in Hin. rewrite !removelast_length in Hin.
  pose proof (split_nonempty topic). pose proof (split_nonempty p).
  destruct (split topic), (split p); simpl in *; try done. lia.
Qed.

Lemma hash_pattern_same_depth_witness :
  let w := register_all [(1, "ns/#")] (initial "ns/host/1") in
  ("ns/#" ∈ topic_search w "ns/a" (message_handlers (private w)) ↔
   removelast (split "ns/a") = removelast (split "ns/#"))
  ∧ ("ns/#" ∈ topic_search w "ns/a" (message_handlers (private w)) →
     length (split "ns/a") = length (split "ns/#")).
Proof.
  cbv zeta.
  apply (hash_pattern_same_depth (register_all [(1, "ns/#")] (initial "ns/host/1"))
           "ns/a" "ns/#").
  - vm_compute. by left.
  - by vm_compute.
Defined.

Lemma split_head_app namespace rest :
  contains "/" namespace = false →
  head (split (namespace +:+ String "/" rest)) = Some namespace.
Proof.
  intros Hns. rewrite split_is_split_on, split_on_app.
  by rewrite (split_on_no_separator _ _ Hns).
Qed.

Lemma split_last_app prefix segment :
  contains "/" segment = false →
  last (split (prefix +:+ String "/" segment)) = Some segment.
Proof.
  intros Hseg. rewrite split_is_split_on, split_on_app.
  rewrite (split_on_no_separator _ _ Hseg). apply last_snoc.
Qed.

(** X4. The service state pattern [<namespace>/+/+/state], once
    registered, is reported for every topic [<namespace>/<middle>/state],
    so for every [<namespace>/<host>/<pid>/state]; the namespace holds no
    slash. *)
Theorem service_state_topic_matches w namespace middle :
  contains "/" namespace = false →
  SERVICE_STATE_TOPIC namespace ∈ message_handlers_wildcard_topics (private w) →
  SERVICE_STATE_TOPIC namespace ∈
    topic_search w (namespace +:+ "/" +:+ middle +:+ "/state")
      (message_handlers (private w)).
Proof.
  intros Hns Hin. apply topic_search_elem. right. split; [done|].
  unfold SERVICE_STATE_TOPIC, wildcard_match.
  change (namespace +:+ "/+/+/state")
    with (namespace +:+ String "/" "+/+/state").
  change (namespace +:+ "/" +:+ middle +:+ "/state")
    with (namespace +:+ String "/" (middle +:+ String "/" "state")).
  assert (Hp : split (namespace +:+ String "/" "+/+/state")
               = [namespace; "+"; "+"; "state"]).
  { rewrite split_is_split_on, split_on_app.
    by rewrite (split_on_no_separator _ _ Hns). }
  rewrite Hp. simpl.
  apply andb_true_iff. split; apply bool_decide_eq_true.
  - by rewrite split_head_app.
  - change (namespace +:+ String "/" (middle +:+ String "/" "state"))
      with (namespace +:+ (String "/" middle +:+ String "/" "state")).
    rewrite <- string_app_assoc. by rewrite split_last_app.
Qed.

Lemma service_state_topic_matches_witness :
  let w := register_all [(1, SERVICE_STATE_TOPIC "aiko")] (initial "aiko/host/1") in
  SERVICE_STATE_TOPIC "aiko" ∈
    topic_search w ("aiko" +:+ "/" +:+ "host/4242" +:+ "/state")
      (message_handlers (private w)).
Proof.
  cbv zeta.
  apply (service_state_topic_matches
           (register_all [(1, SERVICE_STATE_TOPIC "aiko")] (initial "aiko/host/1"))
           "aiko" "host/4242").
  - by vm_compute.
  - vm_compute. by left.
Defined.

(** X5. A message whose topic is, letter for letter, a registered wildcard
    pattern is matched twice, once as a dictionary key and once by the
    wildcard scan. *)
Theorem wildcard_pattern_as_topic_matches_twice w p :
  is_Some (message_handlers (private w) !! p) →
  p ∈ message_handlers_wildcard_topics (private w) →
  ∃ rest, topic_search w p (message_handlers (private w)) = p :: rest
          ∧ p ∈ rest.
Proof.
  intros Hkey Hwild. rewrite topic_search_in_wildcard_order_aux.
  rewrite bool_decide_eq_true_2 by done. eexists. split; [done|].
  apply list_elem_of_In, filter_In. split; [by apply list_elem_of_In|].
  apply wildcard_match_refl.
Qed.

Lemma wildcard_pattern_as_topic_matches_twice_witness :
  let w := register_all [(1, "ns/#")] (initial "ns/host/1") in
  ∃ rest, topic_search w "ns/#" (message_handlers (private w)) = "ns/#" :: rest
          ∧ "ns/#" ∈ rest.
Proof.
  cbv zeta.
  apply (wildcard_pattern_as_topic_matches_twice
           (register_all [(1, "ns/#")] (initial "ns/host/1")) "ns/#").
  - vm_compute. by eexists.
  - vm_compute. by left.
Defined.

End RouterMatching.

(** ** The router: registry *)

Section RegistryFacts.

Implicit Types (w : Framework.World) (h : Handler) (topic t : string).

Lemma add_message_handler_result w h topic :
  (add_message_handler h topic w).1 = Return tt
  ∧ message (public (add_message_handler h topic w).2) =
    (λ calls, calls ++ [subscribe topic]) <$> message (public w).
Proof.
  unfold add_message_handler, bind, get, when, message_truthy, message_call.
  simpl.
  destruct (message_handlers (private w) !! topic) as [hs|] eqn:Hh; simpl.
  - rewrite Hh. simpl.
    by destruct (message (public w)) eqn:Hm; simpl; rewrite ?Hm.
  - destruct (contains "#" topic || contains "+" topic); simpl;
      rewrite lookup_insert_eq; simpl;
      by destruct (message (public w)) eqn:Hm; simpl; rewrite ?Hm.
Qed.

(** X6. A registration always returns: the handler goes to the end of the
    topic's list, the other topics keep their lists, and the topic is
    subscribed when the transport client exists, also when it was
    subscribed before. *)
Theorem add_message_handler_returns w h topic :
  let w' := (add_message_handler h topic w).2 in
  (add_message_handler h topic w).1 = Return tt
  ∧ message_handlers (private w') !! topic =
    Some (default [] (message_handlers (private w) !! topic) ++ [h])
  ∧ (∀ t, t ≠ topic →
       message_handlers (private w') !! t = message_handlers (private w) !! t)
  ∧ message (public w') =
    (λ calls, calls ++ [subscribe topic]) <$> message (public w).
Proof.
  cbv zeta. destruct (add_message_handler_result w h topic) as [Hr Hm].
  destruct (add_message_handler_tables w h topic) as [Ht _].
  split; [done|]. rewrite Ht. split; [apply lookup_insert_eq|].
  split; [|done]. intros t Hne. by apply lookup_insert_ne.
Qed.

(** What a removal does when the topic is registered. *)
Lemma remove_message_handler_spec w h topic hs :
  message_handlers (private w) !! topic = Some hs →
  let hs' := if list_in h hs then list_remove h hs else hs in
  let r := remove_message_handler h topic w in
  r.1 = (if list_in topic (message_handlers_wildcard_topics (private w))
         then Raise TypeError else Return tt)
  ∧ message_handlers (private r.2) =
    (if bool_decide (length hs' = 0)
     then delete topic (message_handlers (private w))
     else <[topic := hs']> (message_handlers (private w)))
  ∧ message_handlers_wildcard_topics (private r.2) =
    message_handlers_wildcard_topics (private w)
  ∧ message (public r.2) =
    (if bool_decide (length hs' = 0)
     then (λ calls, calls ++ [unsubscribe topic]) <$> message (public w)
     else message (public w))
  ∧ exit_status (private r.2) = exit_status (private w)
  ∧ registrar_handler (private r.2) = registrar_handler (private w).
Proof.
  intros Hh hs' r. subst r.
  unfold remove_message_handler, bind, get, message_truthy, message_call.
  simpl. rewrite Hh. simpl. fold hs'.
  destruct (bool_decide (length hs' = 0)); simpl.
  - destruct (message (public w)) as [calls|] eqn:Hm; simpl; rewrite ?Hm;
      simpl;
      destruct (list_in topic (message_handlers_wildcard_topics (private w)));
      simpl; by rewrite ?delete_insert_eq.
  - by destruct (list_in topic (message_handlers_wildcard_topics (private w))).
Qed.

Lemma remove_message_handler_unregistered w h topic :
  message_handlers (private w) !! topic = None →
  remove_message_handler h topic w = (Return tt, w).
Proof.
  intros Hh. unfold remove_message_handler, bind, get. simpl. by rewrite Hh.
Qed.

Lemma add_message_handler_wf w h topic :
  registry_wf w → registry_wf (add_message_handler h topic w).2.
Proof.
  intros (Hnd & Hiff & Hne).
  destruct (add_message_handler_tables w h topic) as [Ht Hw].
  unfold registry_wf. rewrite Ht, Hw. clear Ht Hw.
  fold (is_wildcard topic).
  assert (Hfresh : ¬ is_Some (message_handlers (private w) !! topic) →
                   topic ∉ message_handlers_wildcard_topics (private w)).
  { intros Hnone Hin. apply Hnone. by apply Hiff in Hin as [? _]. }
  split; [|split].
  - case_bool_decide as Hreg; [by rewrite app_nil_r|].
    destruct (is_wildcard topic); [|by rewrite app_nil_r].
    apply NoDup_app. split; [done|]. split; [|apply NoDup_singleton].
    intros x Hx ->%list_elem_of_singleton. by apply (Hfresh Hreg).
  - intros t. destruct (decide (t = topic)) as [->|Hneq].
    + rewrite lookup_insert_eq. rewrite elem_of_app.
      case_bool_decide as Hreg.
      * rewrite Hiff. split.
        -- intros [[_ ?]|Hnil]; [by split; [eexists|]|by apply elem_of_nil in Hnil].
        -- intros [_ ?]. by left.
      * split.
        -- intros [Hin|Hin]; [by apply Hfresh in Hin|].
           split; [by eexists|].
           destruct (is_wildcard topic); [done|by apply elem_of_nil in Hin].
        -- intros [_ ->]. right. by left.
    + rewrite lookup_insert_ne by done. rewrite elem_of_app, Hiff.
      split; [|by left]. intros [?|Hin]; [done|].
      case_bool_decide; [by apply elem_of_nil in Hin|].
      destruct (is_wildcard topic);
        [by apply list_elem_of_singleton in Hin | by apply elem_of_nil in Hin].
  - intros t hs. destruct (decide (t = topic)) as [->|Hneq].
    + rewrite lookup_insert_eq. intros [= <-]. by destruct (default _ _).
    + rewrite lookup_insert_ne by done. apply Hne.
Qed.

Lemma remove_message_handler_wf w h topic :
  registry_wf w →
  (remove_message_handler h topic w).1 = Return tt →
  registry_wf (remove_message_handler h topic w).2.
Proof.
  intros Hwf Hret.
  destruct (message_handlers (private w) !! topic) as [hs|] eqn:Hh;
    [|by rewrite remove_message_handler_unregistered].
  destruct (remove_message_handler_spec w h topic hs Hh)
    as (Hr & Ht & Hw & _).
  assert (Hin : topic ∉ message_handlers_wildcard_topics (private w)).
  { intros Hin. rewrite Hr in Hret. unfold list_in in Hret.
    by rewrite bool_decide_eq_true_2 in Hret. }
  clear Hr Hret.
  destruct Hwf as (Hnd & Hiff & Hne).
  assert (Hexact : is_wildcard topic = false).
  { destruct (is_wildcard topic) eqn:Hwc; [|done].
    exfalso. apply Hin, Hiff. split; [by eexists|done]. }
  unfold registry_wf. rewrite Ht, Hw. clear Ht Hw.
  set (hs' := if list_in h hs then list_remove h hs else hs).
  split; [done|]. split.
  - intros t. rewrite Hiff. destruct (decide (t = topic)) as [->|Hneq].
    + rewrite Hexact. split; intros [_ ?]; done.
    + case_bool_decide; by rewrite ?lookup_delete_ne, ?lookup_insert_ne.
  - intros t l. destruct (decide (t = topic)) as [->|Hneq].
    + case_bool_decide as Hlen.
      * by rewrite lookup_delete_eq.
      * rewrite lookup_insert_eq. intros [= <-] ->. done.
    + case_bool_decide; rewrite ?lookup_delete_ne, ?lookup_insert_ne by done;
        apply Hne.
Qed.

Lemma reachable_wf w : reachable w → registry_wf w.
Proof.
  induction 1 as [w Hm Hw|w h t _ IH|w h t _ IH Hret|w f _ IH].
  - unfold registry_wf. rewrite Hm, Hw. split; [apply NoDup_nil_2|].
    split.
    + intros t. split; [by intros ?%elem_of_nil|].
      rewrite lookup_empty. by intros [[? ?] _].
    + intros t hs. by rewrite lookup_empty.
  - by apply add_message_handler_wf.
  - by apply remove_message_handler_wf.
  - exact IH.
Qed.

(** X7. The registry invariant: in every reachable state the wildcard
    list has no duplicates, it holds exactly the registered topics that
    contain [#] or [+], and no registered topic has an empty handler
    list. *)
Theorem reachable_registry_invariant w : reachable w → registry_wf w.
Proof. apply reachable_wf. Qed.

Lemma reachable_registry_invariant_witness :
  registry_wf
    (remove_message_handler 2 "ns/x"
       (register_all [(1, "ns/#"); (2, "ns/x")] (connected "ns/host/1"))).2.
Proof.
  apply reachable_registry_invariant.
  apply reachable_remove; [|by vm_compute].
  apply reachable_add, reachable_add, reachable_start; reflexivity.
Defined.

(** X8. In a reachable state a removal raises exactly for a registered
    wildcard topic, and then it is a [TypeError]; for every other topic it
    returns. *)
Theorem remove_raises_iff_wildcard w h topic :
  reachable w →
  (remove_message_handler h topic w).1 =
  (if bool_decide (is_Some (message_handlers (private w) !! topic))
      && is_wildcard topic
   then Raise TypeError else Return tt).
Proof.
  intros (_ & Hiff & _)%reachable_wf.
  destruct (message_handlers (private w) !! topic) as [hs|] eqn:Hh.
  - destruct (remove_message_handler_spec w h topic hs Hh) as (-> & _).
    rewrite bool_decide_eq_true_2 by (by eexists). simpl. unfold list_in.
    case_bool_decide as Hin.
    + apply Hiff in Hin as [_ ->]. done.
    + destruct (is_wildcard topic) eqn:Hwc; [|done].
      exfalso. apply Hin, Hiff. rewrite Hh. split; [by eexists|done].
  - rewrite remove_message_handler_unregistered by done.
    rewrite bool_decide_eq_false_2; [done|]. by intros [? ?].
Qed.

Lemma remove_raises_iff_wildcard_witness :
  let w := register_all [(1, "ns/+/+/state"); (2, "ns/x")] (connected "ns/host/1") in
  (remove_message_handler 1 "ns/+/+/state" w).1 = Raise TypeError
  ∧ (remove_message_handler 2 "ns/x" w).1 = Return tt.
Proof.
  cbv zeta.
  assert (Hr : reachable (register_all [(1, "ns/+/+/state"); (2, "ns/x")]
                            (connected "ns/host/1"))).
  { apply reachable_add, reachable_add, reachable_start; reflexivity. }
  split.
  - rewrite (remove_raises_iff_wildcard _ 1 "ns/+/+/state" Hr). by vm_compute.
  - rewrite (remove_raises_iff_wildcard _ 2 "ns/x" Hr). by vm_compute.
Defined.

Lemma remove_last_exact_handler_witness :
  let w := register_all [(1, "ns/x")] (connected "ns/host/1") in
  let r := remove_message_handler 1 "ns/x" w in
  r.1 = Return tt
  ∧ message_handlers (private r.2) !! "ns/x" = None
  ∧ message (public r.2) = Some [subscribe "ns/x"; unsubscribe "ns/x"].
Proof.
  cbv zeta.
  rewrite (remove_last_exact_handler
             (register_all [(1, "ns/x")] (connected "ns/host/1")) 1 "ns/x"
             [subscribe "ns/x"]);
    [|by vm_compute|vm_compute; by intros ?%elem_of_nil|by vm_compute].
  repeat split.
Defined.

Lemma world_eta w :
  Framework.mkWorld
    (mkPrivate (exit_status (private w)) (message_handlers (private w))
       (message_handlers_wildcard_topics (private w))
       (registrar_handler (private w)))
    (public w) (event_terminated w) (stdout w) = w.
Proof. by destruct w as [[] ? ? ?]. Qed.

(** X10. Removing what is not registered changes nothing: the topic is
    unknown, or it is an exact topic with other handlers and the handler
    is not among them. *)
Theorem remove_unregistered_is_noop w h topic :
  message_handlers (private w) !! topic = None
  ∨ (∃ hs, message_handlers (private w) !! topic = Some hs
           ∧ (h ∉ hs) ∧ (hs ≠ [])
           ∧ (topic ∉ message_handlers_wildcard_topics (private w))) →
  remove_message_handler h topic w = (Return tt, w).
Proof.
  intros [Hnone|(hs & Hh & Hnotin & Hne & Hwild)];
    [by apply remove_message_handler_unregistered|].
  unfold remove_message_handler, bind, get. simpl. rewrite Hh. simpl.
  unfold list_in. rewrite (bool_decide_eq_false_2 (h ∈ hs)) by done.
  rewrite bool_decide_eq_false_2 by (by destruct hs). simpl.
  rewrite bool_decide_eq_false_2 by done. simpl.
  unfold ret, set_private, set_message_handlers. simpl.
  rewrite insert_id by done. by rewrite world_eta.
Qed.

Lemma remove_unregistered_is_noop_witness :
  let w := register_all [(1, "ns/x")] (connected "ns/host/1") in
  remove_message_handler 2 "ns/x" w = (Return tt, w).
Proof.
  cbv zeta.
  apply (remove_unregistered_is_noop
           (register_all [(1, "ns/x")] (connected "ns/host/1")) 2 "ns/x").
  right. exists [1]. split; [by vm_compute|].
  split; [by intros [=]%list_elem_of_singleton|].
  split; [done|]. vm_compute. by intros ?%elem_of_nil.
Defined.

(** X11. Registering a handler on a fresh exact topic and removing it
    again restores the tables of [private]; the transport has seen one
    subscribe and one unsubscribe for the topic. *)
Theorem add_remove_roundtrip w h topic :
  message_handlers (private w) !! topic = None →
  topic ∉ message_handlers_wildcard_topics (private w) →
  is_wildcard topic = false →
  let r := remove_message_handler h topic (add_message_handler h topic w).2 in
  r.1 = Return tt
  ∧ private r.2 = private w
  ∧ message (public r.2) =
    (λ calls, calls ++ [subscribe topic; unsubscribe topic])
      <$> message (public w).
Proof.
  intros Hnone Hwild Hexact r. subst r.
  destruct (add_message_handler_tables w h topic) as [Ht Hw].
  destruct (add_message_handler_result w h topic) as [_ Hm].
  set (w1 := (add_message_handler h topic w).2) in *.
  rewrite Hnone in Ht, Hw. simpl in Ht.
  rewrite bool_decide_eq_false_2 in Hw by (by intros [? ?]).
  unfold is_wildcard in Hexact. rewrite Hexact, app_nil_r in Hw.
  assert (Hh1 : message_handlers (private w1) !! topic = Some [h])
    by (rewrite Ht; apply lookup_insert_eq).
  destruct (remove_message_handler_spec w1 h topic [h] Hh1)
    as (Hr & Ht' & Hw' & Hm' & He & Hrh).
  unfold list_in in *.
  rewrite (bool_decide_eq_true_2 (h ∈ [h])) in Ht', Hm'
    by apply list_elem_of_here.
  simpl in Ht', Hm'. rewrite decide_True in Ht', Hm' by done.
  simpl in Ht', Hm'.
  rewrite Hw, (bool_decide_eq_false_2 _ Hwild) in Hr.
  split; [done|]. split.
  - destruct (private (remove_message_handler h topic w1).2) as [e m l rh] eqn:Hp.
    simpl in *. subst e m l rh.
    rewrite Ht, delete_insert_eq, delete_id by done.
    assert (He1 : exit_status (private w1) = exit_status (private w)
                  ∧ registrar_handler (private w1) = registrar_handler (private w)).
    { subst w1. unfold add_message_handler, bind, get, when, message_truthy,
        message_call. simpl. rewrite Hnone. simpl.
      destruct (contains "#" topic || contains "+" topic); simpl;
        rewrite lookup_insert_eq; simpl;
        by destruct (message (public w)) eqn:Hmsg; simpl; rewrite ?Hmsg. }
    destruct He1 as [-> ->]. rewrite Hw. by destruct (private w).
  - rewrite Hm', Hm. destruct (message (public w)); simpl; [|done].
    by rewrite <- app_assoc.
Qed.

Lemma add_remove_roundtrip_witness :
  let w := connected "ns/host/1" in
  let r := remove_message_handler 1 "ns/x" (add_message_handler 1 "ns/x" w).2 in
  r.1 = Return tt
  ∧ private r.2 = private w
  ∧ message (public r.2) = Some [subscribe "ns/x"; unsubscribe "ns/x"].
Proof.
  cbv zeta.
  apply (add_remove_roundtrip (connected "ns/host/1") 1 "ns/x").
  - by vm_compute.
  - vm_compute. by intros ?%elem_of_nil.
  - by vm_compute.
Defined.

Lemma list_remove_perm (h : Handler) (hs : list Handler) :
  h ∈ hs → hs ≡ₚ h :: list_remove h hs.
Proof.
  induction hs as [|x hs IH]; [by intros ?%elem_of_nil|]. simpl.
  destruct (decide (h = x)) as [->|Hne]; [done|].
  intros [?|Hin]%elem_of_cons; [done|].
  rewrite (IH Hin) at 1. apply Permutation_swap.
Qed.

Lemma list_remove_sublist (h : Handler) (hs : list Handler) :
  list_remove h hs `sublist_of` hs.
Proof.
  induction hs as [|x hs IH]; simpl; [done|].
  destruct (decide (h = x)); [by apply sublist_cons|by apply sublist_skip].
Qed.

(** X12. A removal takes one registration away: with the handler among
    two or more registrations of an exact topic, the topic's list loses
    the first occurrence of the handler and keeps the rest in order, and
    nothing is unsubscribed. *)
Theorem remove_one_registration w h topic (hs : list Handler) :
  message_handlers (private w) !! topic = Some hs →
  h ∈ hs →
  (2 ≤ length hs)%nat →
  topic ∉ message_handlers_wildcard_topics (private w) →
  let r := remove_message_handler h topic w in
  r.1 = Return tt
  ∧ message_handlers (private r.2) !! topic = Some (list_remove h hs)
  ∧ hs ≡ₚ h :: list_remove h hs
  ∧ list_remove h hs `sublist_of` hs
  ∧ message (public r.2) = message (public w).
Proof.
  intros Hh Hin Hlen Hwild r. subst r.
  destruct (remove_message_handler_spec w h topic hs Hh)
    as (Hr & Ht & _ & Hm & _).
  unfold list_in in *.
  rewrite (bool_decide_eq_true_2 (h ∈ hs)) in Ht, Hm by done.
  rewrite (bool_decide_eq_false_2 _ Hwild) in Hr.
  pose proof (list_remove_perm h hs Hin) as Hperm.
  assert (Hl : length (list_remove h hs) ≠ 0).
  { apply Permutation_length in Hperm. simpl in Hperm. lia. }
  rewrite bool_decide_eq_false_2 in Ht, Hm by done.
  split; [done|]. rewrite Ht, lookup_insert_eq.
  split; [done|]. split; [done|]. split; [apply list_remove_sublist|done].
Qed.

Lemma remove_one_registration_witness :
  let w := register_all [(1, "ns/x"); (2, "ns/x"); (1, "ns/x")] (connected "ns/host/1") in
  let r := remove_message_handler 1 "ns/x" w in
  r.1 = Return tt
  ∧ message_handlers (private r.2) !! "ns/x" = Some (list_remove 1 [1; 2; 1])
  ∧ [1; 2; 1] ≡ₚ 1 :: list_remove 1 [1; 2; 1]
  ∧ list_remove 1 [1; 2; 1] `sublist_of` [1; 2; 1]
  ∧ message (public r.2) = message (public w).
Proof.
  cbv zeta.
  apply (remove_one_registration
           (register_all [(1, "ns/x"); (2, "ns/x"); (1, "ns/x")]
              (connected "ns/host/1")) 1 "ns/x" [1; 2; 1]).
  - by vm_compute.
  - by left.
  - simpl. lia.
  - vm_compute. by intros ?%elem_of_nil.
Defined.

End RegistryFacts.

(** ** The router: dispatch *)

Section DispatchMore.

Variable handler_call : Handler → string → string → M Framework.World bool.
Variable format_exc : exn → string.

Local Abbreviation invoke_handlers :=
  (Framework.invoke_handlers handler_call format_exc).
Local Abbreviation message_queue_handler :=
  (Framework.message_queue_handler handler_call format_exc).

Implicit Types (w : Framework.World) (message : MQTTMessage).

(** The loop lets through only what [except Exception] does not catch. *)
Lemma invoke_handlers_raise hs t p called w e :
  (invoke_handlers hs t p called w).1.1 = Raise e → is_Exception e = false.
Proof.
  revert called w. induction hs as [|h rest IH]; intros called w; simpl.
  - done.
  - destruct (handler_call h t p w) as [[[]|e'] w1]; [done|apply IH|].
    destruct (is_Exception e') eqn:He'; [apply IH|].
    simpl. by intros [= <-].
Qed.

Lemma reachable_consistent w : reachable w → registry_consistent w.
Proof. intros (_ & Hiff & _)%reachable_wf t Ht. by apply Hiff in Ht as [? _]. Qed.

(** Building the handler list fails only with [KeyError], for a matched
    topic without an entry. *)
Lemma extend_handlers_raise w (topics_matched : list string) acc e :
  extend_handlers w topics_matched acc = Raise e →
  e = KeyError
  ∧ ∃ t, t ∈ topics_matched ∧ message_handlers (private w) !! t = None.
Proof.
  revert acc. induction topics_matched as [|t rest IH]; intros acc; simpl.
  - done.
  - destruct (message_handlers (private w) !! t) as [hs|] eqn:Ht.
    + intros [-> (t' & Hin & Hnone)]%IH. split; [done|].
      exists t'. split; [by right|done].
    + intros [= <-]. split; [done|]. exists t. split; [by left|done].
Qed.

Lemma dispatch_raises_only_aux w message :
  (message_queue_handler message w).1.1 = Raise KeyError →
  (∃ p, p ∈ message_handlers_wildcard_topics (private w)
        ∧ wildcard_match (split (topic message)) (split p) = true
        ∧ message_handlers (private w) !! p = None)
  ∨ False.
Proof.
  unfold Framework.message_queue_handler.
  destruct (payload message) as [payload_in|]; [|done].
  destruct (extend_handlers w _ []) as [hs|e'] eqn:Hhs.
  - case_bool_decide; [|done].
    pose proof (invoke_handlers_raise hs (topic message) payload_in [] w
                  KeyError) as Hr.
    destruct (invoke_handlers hs (topic message) payload_in [] w)
      as [[[b|e''] called] w']; simpl in *; [done|].
    intros [= ->]. by specialize (Hr eq_refl).
  - simpl. intros _. left.
    apply extend_handlers_raise in Hhs as [-> (p & Hin & Hnone)].
    exists p.
    apply topic_search_elem in Hin as [[-> [? Hsome]]|[? ?]]; [congruence|done].
Qed.

(** X13. The router raises in three ways only: [ValueError] for a payload
    that does not decode; [KeyError] when a matching topic of the wildcard
    list has no entry in the handler dictionary, which is the state a
    raising removal of a wildcard topic leaves; both before any handler is
    called; or the exception of a handler that is no [Exception]. *)
Theorem dispatch_raises_only w message e :
  (message_queue_handler message w).1.1 = Raise e →
  (payload message = None ∧ e = ValueError
   ∧ (message_queue_handler message w).1.2 = [])
  ∨ (e = KeyError
     ∧ (message_queue_handler message w).1.2 = []
     ∧ ∃ p, p ∈ message_handlers_wildcard_topics (private w)
            ∧ wildcard_match (split (topic message)) (split p) = true
            ∧ message_handlers (private w) !! p = None)
  ∨ is_Exception e = false.
Proof.
  unfold Framework.message_queue_handler.
  destruct (payload message) as [payload_in|]; [|intros [= <-]; by left].
  destruct (extend_handlers w _ []) as [hs|e'] eqn:Hhs.
  - case_bool_decide; [|done].
    pose proof (invoke_handlers_raise hs (topic message) payload_in [] w e) as Hr.
    destruct (invoke_handlers hs (topic message) payload_in [] w)
      as [[[b|e''] called] w']; simpl in *; [done|].
    intros [= <-]. right. right. by apply Hr.
  - simpl. intros [= <-]. right. left.
    apply extend_handlers_raise in Hhs as [-> (p & Hin & Hnone)].
    split; [done|]. split; [done|]. exists p.
    apply topic_search_elem in Hin as [[-> [? Hsome]]|[? ?]]; [congruence|done].
Qed.

(** In a state where every topic of the wildcard list has an entry, as in
    every state that registrations and returning removals build, the
    handler list is built and the router raises no [KeyError]. *)
Lemma dispatch_no_KeyError w message :
  registry_consistent w →
  (message_queue_handler message w).1.1 ≠ Raise KeyError.
Proof.
  intros Hw He. apply dispatch_raises_only_aux in He as Hp.
  destruct Hp as [(p & Hin & _ & Hnone)|Hp]; [|done].
  apply Hw in Hin as [? Hsome]. congruence.
Qed.

End DispatchMore.

Lemma dispatch_raises_only_witness :
  let w := (remove_message_handler 1 "ns/#"
              (register_all [(1, "ns/#")] (connected "ns/host/1"))).2 in
  let message := Framework.mkMessage "ns/x" (Some "(x)") in
  let run := Framework.message_queue_handler (λ _ _ _, ret false) (λ _, "")
               message w in
  (payload message = None ∧ KeyError = ValueError ∧ run.1.2 = [])
  ∨ (KeyError = KeyError
     ∧ run.1.2 = []
     ∧ ∃ p, p ∈ message_handlers_wildcard_topics (private w)
            ∧ wildcard_match (split (topic message)) (split p) = true
            ∧ message_handlers (private w) !! p = None)
  ∨ is_Exception KeyError = false.
Proof.
  cbv zeta.
  apply (dispatch_raises_only (λ _ _ _, ret false) (λ _, "")
           (remove_message_handler 1 "ns/#"
              (register_all [(1, "ns/#")] (connected "ns/host/1"))).2
           (Framework.mkMessage "ns/x" (Some "(x)")) KeyError).
  by vm_compute.
Defined.

Section DispatchAll.

Variable handler_call : Handler → string → string → M Framework.World bool.
Variable format_exc : exn → string.

Local Abbreviation invoke_handlers :=
  (Framework.invoke_handlers handler_call format_exc).
Local Abbreviation message_queue_handler :=
  (Framework.message_queue_handler handler_call format_exc).

Implicit Types (w : Framework.World) (message : MQTTMessage).

(** X14. When no handler of the list returns true and every exception a
    handler raises is an [Exception], the router calls every handler of
    the list, each once and in the order of the list, and returns. *)
Theorem dispatch_calls_every_handler message payload_in w hs :
  payload message = Some payload_in →
  extend_handlers w
    (topic_search w (topic message) (message_handlers (private w))) [] =
    Return hs →
  (∀ h w0, h ∈ hs →
     match (handler_call h (topic message) payload_in w0).1 with
     | Return b => b = false
     | Raise e => is_Exception e = true
     end) →
  (message_queue_handler message w).1 = (Return tt, hs).
Proof.
  intros Hp Hhs Hall.
  rewrite (message_queue_handler_unfold _ _ _ _ _ _ Hp Hhs).
  pose proof (invoke_handlers_all_called handler_call format_exc hs
                (topic message) payload_in [] w Hall) as Hrun.
  destruct (invoke_handlers hs (topic message) payload_in [] w)
    as [[r called] w']. simpl in *. by injection Hrun as -> ->.
Qed.

(** X15. An exception of a handler that is no [Exception], such as
    [SystemExit], is not caught: it leaves the router at once, nothing is
    printed and the handlers after it are not called. *)
Theorem dispatch_base_exception_propagates
  message payload_in w hs pre h post called1 w1 e w2 :
  payload message = Some payload_in →
  extend_handlers w
    (topic_search w (topic message) (message_handlers (private w))) [] =
    Return hs →
  hs = pre ++ h :: post →
  invoke_handlers pre (topic message) payload_in [] w =
    (Return false, called1, w1) →
  handler_call h (topic message) payload_in w1 = (Raise e, w2) →
  is_Exception e = false →
  message_queue_handler message w = (Raise e, pre ++ [h], w2).
Proof.
  intros Hp Hhs -> Hpre Hh He.
  rewrite (message_queue_handler_unfold _ _ _ _ _ _ Hp Hhs).
  rewrite invoke_handlers_app, Hpre. simpl. rewrite Hh, He.
  by apply invoke_handlers_fell_through in Hpre as ->.
Qed.

End DispatchAll.

Lemma dispatch_calls_every_handler_witness :
  let handler_call : Handler → string → string → M Framework.World bool :=
    λ h _ _, if bool_decide (h = 1) then raise KeyError else ret false in
  let w := register_all [(1, "ns/x"); (2, "ns/#")] (connected "ns/host/1") in
  (Framework.message_queue_handler handler_call (λ _, "")
     (Framework.mkMessage "ns/x" (Some "(x)")) w).1 = (Return tt, [1; 2]).
Proof.
  cbv zeta.
  apply (dispatch_calls_every_handler
           (λ h _ _, if bool_decide (h = 1) then raise KeyError else ret false)
           (λ _, "") (Framework.mkMessage "ns/x" (Some "(x)")) "(x)"
           (register_all [(1, "ns/x"); (2, "ns/#")] (connected "ns/host/1"))
           [1; 2]).
  - reflexivity.
  - by vm_compute.
  - intros h w0 _. simpl. by case_bool_decide.
Defined.

Lemma dispatch_base_exception_propagates_witness :
  let handler_call : Handler → string → string → M Framework.World bool :=
    λ h _ _, if bool_decide (h = 1) then raise SystemExit else ret false in
  let w := register_all [(1, "ns/x"); (2, "ns/#")] (connected "ns/host/1") in
  Framework.message_queue_handler handler_call (λ _, "")
    (Framework.mkMessage "ns/x" (Some "(x)")) w = (Raise SystemExit, [1], w).
Proof.
  cbv zeta.
  apply (dispatch_base_exception_propagates
           (λ h _ _, if bool_decide (h = 1) then raise SystemExit else ret false)
           (λ _, "") (Framework.mkMessage "ns/x" (Some "(x)")) "(x)"
           (register_all [(1, "ns/x"); (2, "ns/#")] (connected "ns/host/1"))
           [1; 2] [] 1 [2] []
           (register_all [(1, "ns/x"); (2, "ns/#")] (connected "ns/host/1"))).
  - reflexivity.
  - by vm_compute.
  - reflexivity.
  - reflexivity.
  - reflexivity.
  - reflexivity.
Defined.

(** X16. Registrations are not deduplicated: a handler registered twice on
    an exact topic of a fresh registry is called twice for a message on
    that topic, as long as it does not return true. *)
Theorem duplicate_registration_runs_twice
  (handler_call : Handler → string → string → M Framework.World bool)
  (format_exc : exn → string) own_topic_path h t payload_in :
  is_wildcard t = false →
  (∀ w0, (handler_call h t payload_in w0).1 = Return false) →
  let w := register_all [(h, t); (h, t)] (initial own_topic_path) in
  message_handlers (private w) !! t = Some [h; h]
  ∧ (Framework.message_queue_handler handler_call format_exc
       (Framework.mkMessage t (Some payload_in)) w).1 = (Return tt, [h; h]).
Proof.
  intros Hexact Hfalse w.
  assert (Ht : message_handlers (private w) = <[t := [h; h]]> ∅
               ∧ message_handlers_wildcard_topics (private w) = []).
  { subst w.
    destruct (add_message_handler_tables (initial own_topic_path) h t) as [H1 W1].
    destruct (add_message_handler_tables
                (add_message_handler h t (initial own_topic_path)).2 h t)
      as [H2 W2].
    simpl in H1, W1. rewrite lookup_empty in H1, W1. simpl in H1.
    rewrite bool_decide_eq_false_2 in W1 by (by intros [? ?]).
    unfold is_wildcard in Hexact. rewrite Hexact in W1. simpl in W1.
    rewrite H1 in H2, W2. rewrite lookup_insert_eq in H2, W2. simpl in H2.
    rewrite insert_insert_eq in H2.
    rewrite bool_decide_eq_true_2 in W2 by (by eexists).
    rewrite W1 in W2. simpl in W2. split; [exact H2|exact W2]. }
  destruct Ht as [Hm Hw].
  assert (Hl : message_handlers (private w) !! t = Some [h; h])
    by (rewrite Hm; apply lookup_insert_eq).
  split; [done|].
  unfold Framework.message_queue_handler. simpl.
  rewrite topic_search_in_wildcard_order_aux, Hw, Hl. simpl.
  rewrite Hl. simpl.
  pose proof (Hfalse w) as H1.
  destruct (handler_call h t payload_in w) as [r1 w1]. simpl in H1. subst r1.
  pose proof (Hfalse w1) as H2.
  destruct (handler_call h t payload_in w1) as [r2 w2]. simpl in H2. by subst r2.
Qed.

Lemma duplicate_registration_runs_twice_witness :
  let w := register_all [(7, "ns/x"); (7, "ns/x")] (initial "ns/host/1") in
  message_handlers (private w) !! "ns/x" = Some [7; 7]
  ∧ (Framework.message_queue_handler (λ _ _ _, ret false) (λ _, "")
       (Framework.mkMessage "ns/x" (Some "(x)")) w).1 = (Return tt, [7; 7]).
Proof.
  cbv zeta.
  apply (duplicate_registration_runs_twice (λ _ _ _, ret false) (λ _, "")
           "ns/host/1" 7 "ns/x" "(x)").
  - by vm_compute.
  - reflexivity.
Defined.

(** ** The registrar channel: more cases *)

Section RegistrarMore.

Variable parse : string → result (Sexp * list Sexp).
Variable get_username : string.
Variable registrar_handler_call :
  Handler → option Sexp → gmap string Sexp → M Framework.World bool.

Local Abbreviation on_registrar_message :=
  (Framework.on_registrar_message parse get_username registrar_handler_call).
Local Abbreviation registrar_handler_block :=
  (Framework.registrar_handler_block registrar_handler_call).

Implicit Types (w : Framework.World) (topic payload_in : string).

Lemma started_record_topic_path p1 timestamp :
  started_record p1 timestamp !! "topic_path" = Some p1.
Proof.
  unfold started_record. rewrite lookup_insert_ne by done.
  apply lookup_insert_eq.
Qed.

Lemma stopped_run w topic payload_in :
  parse payload_in = Return (Atom "primary", [Atom "stopped"]) →
  on_registrar_message topic payload_in w =
  registrar_handler_block (Some (Atom "stopped")) ∅
    (if terminate_registrar_not_found (public w)
     then (terminate 1
             (set_public (set_connection TRANSPORT)
                (set_public (set_topic_path_registrar None) w))).2
     else set_public (set_connection TRANSPORT)
            (set_public (set_topic_path_registrar None) w)).
Proof.
  intros Hparse. unfold Framework.on_registrar_message. rewrite Hparse. simpl.
  unfold bind, get, when. simpl.
  by destruct (terminate_registrar_not_found (public w)).
Qed.

Lemma started_run w topic payload_in p1 timestamp :
  parse payload_in = Return (Atom "primary", [Atom "started"; p1; timestamp]) →
  on_registrar_message topic payload_in w =
  match
    (if protocol_truthy w then
       match p1 with
       | Atom registrar_topic_path =>
           message_call (publish (registrar_topic_path +:+ "/in")
                           (announcement w get_username)) w
       | SList _ => (Raise TypeError, w)
       end
     else (Return tt, w))
  with
  | (Return _, w1) =>
      registrar_handler_block (Some (Atom "started"))
        (started_record p1 timestamp)
        (set_public (set_connection REGISTRAR)
           (set_public (set_topic_path_registrar (Some p1)) w1))
  | (Raise e, w1) => (Raise e, w1)
  end.
Proof.
  intros Hparse. unfold Framework.on_registrar_message. rewrite Hparse. simpl.
  fold (started_record p1 timestamp).
  unfold bind, get, when. simpl. rewrite !started_record_topic_path.
  destruct (protocol_truthy w); simpl; [|done].
  destruct p1 as [registrar_topic_path|l]; [|done].
  by destruct (message_call _ w) as [[[]|e] w1].
Qed.


(** X18. [started] with a protocol set, when the announcement cannot be
    made: without a transport client the publish is an [AttributeError],
    with a list parsed as topic path the concatenation is a [TypeError].
    In both cases the exception leaves the function with the state as it
    was: no path recorded, no connection change, no registrar handler
    called. *)
Theorem started_announcement_failure w topic payload_in p1 timestamp :
  parse payload_in = Return (Atom "primary", [Atom "started"; p1; timestamp]) →
  protocol_truthy w = true →
  ((∃ l, p1 = SList l) →
   on_registrar_message topic payload_in w = (Raise TypeError, w))
  ∧ ((∃ text, p1 = Atom text) → message (public w) = None →
     on_registrar_message topic payload_in w = (Raise AttributeError, w)).
Proof.
  intros Hparse Hproto.
  rewrite (started_run _ _ _ _ _ Hparse), Hproto. split.
  - by intros [l ->].
  - intros [text ->] Hmsg. unfold message_call. by rewrite Hmsg.
Qed.

(** X19. The registrar handler set through [set_registrar_handler] is
    called after the [stopped] transition, and after [terminate(1)] when
    [terminate_registrar_not_found] is set, with the action and the empty
    registrar record; what it returns is dropped and what it raises leaves
    [on_registrar_message], the transition being applied already. *)
Theorem stopped_calls_registrar_handler w topic payload_in h :
  parse payload_in = Return (Atom "primary", [Atom "stopped"]) →
  registrar_handler (private w) = Some h →
  let w1 := set_public (set_connection TRANSPORT)
              (set_public (set_topic_path_registrar None) w) in
  let w' := if terminate_registrar_not_found (public w)
            then (terminate 1 w1).2 else w1 in
  on_registrar_message topic payload_in w =
  match registrar_handler_call h (Some (Atom "stopped")) ∅ w' with
  | (Return _, w'') => (Return tt, w'')
  | (Raise e, w'') => (Raise e, w'')
  end.
Proof.
  intros Hparse Hh w1 w'. rewrite (stopped_run _ _ _ Hparse). fold w1 w'.
  unfold Framework.registrar_handler_block, bind, get. simpl.
  assert (Hh' : registrar_handler (private w') = Some h).
  { subst w' w1. by destruct (terminate_registrar_not_found (public w)). }
  rewrite Hh'. by destruct (registrar_handler_call _ _ _ w') as [[b|e] w''].
Qed.

(** X20. A registrar that starts and then stops: with a protocol, a
    transport client, no registrar handler and
    [terminate_registrar_not_found] off, the actor has announced itself
    once, the recorded path is cleared again, the connection is back at
    [TRANSPORT], and the process is not told to terminate. *)
Theorem started_then_stopped
  w topic started_payload stopped_payload registrar_topic_path timestamp calls :
  parse started_payload =
    Return (Atom "primary", [Atom "started"; Atom registrar_topic_path; timestamp]) →
  parse stopped_payload = Return (Atom "primary", [Atom "stopped"]) →
  protocol_truthy w = true →
  message (public w) = Some calls →
  registrar_handler (private w) = None →
  terminate_registrar_not_found (public w) = false →
  let run :=
    on_registrar_message topic started_payload >>;
    on_registrar_message topic stopped_payload in
  (run w).1 = Return tt
  ∧ message (public (run w).2) =
    Some (calls ++ [publish (registrar_topic_path +:+ "/in")
                      (announcement w get_username)])
  ∧ topic_path_registrar (public (run w).2) = None
  ∧ connection (public (run w).2) = TRANSPORT
  ∧ private (run w).2 = private w
  ∧ event_terminated (run w).2 = event_terminated w.
Proof.
  intros Hstart Hstop Hproto Hmsg Hnone Hflag run.
  set (announced := calls ++ [publish (registrar_topic_path +:+ "/in")
                                (announcement w get_username)]).
  assert (Hrun : run w =
    (Return tt,
     set_public (set_connection TRANSPORT)
       (set_public (set_topic_path_registrar None)
          (set_public (set_connection REGISTRAR)
             (set_public
                (set_topic_path_registrar (Some (Atom registrar_topic_path)))
                (set_public (set_message (Some announced)) w)))))).
  { subst run. unfold bind.
    rewrite (started_run _ _ _ _ _ Hstart), Hproto.
    unfold message_call. rewrite Hmsg.
    unfold Framework.registrar_handler_block at 1, bind, get. simpl.
    rewrite Hnone. simpl.
    rewrite (stopped_run _ _ _ Hstop). simpl. rewrite Hflag.
    unfold Framework.registrar_handler_block, bind, get. simpl.
    by rewrite Hnone. }
  rewrite Hrun. repeat split.
Qed.

End RegistrarMore.


Lemma started_announcement_failure_witness :
  let w := (set_protocol (Some "proto") (initial "ns/host/1")).2 in
  Framework.on_registrar_message spec_parse_result "me" (λ _ _ _, ret true)
    "ns/service/registrar" "(primary started reg/topic 12345)" w
  = (Raise AttributeError, w)
  ∧ Framework.on_registrar_message spec_parse_result "me" (λ _ _ _, ret true)
      "ns/service/registrar" "(primary started (reg topic) 12345)" w
    = (Raise TypeError, w).
Proof.
  cbv zeta. split.
  - apply (started_announcement_failure spec_parse_result "me" (λ _ _ _, ret true)
             (set_protocol (Some "proto") (initial "ns/host/1")).2
             "ns/service/registrar" "(primary started reg/topic 12345)"
             (Atom "reg/topic") (Atom "12345") eq_refl eq_refl);
      [by eexists|reflexivity].
  - apply (started_announcement_failure spec_parse_result "me" (λ _ _ _, ret true)
             (set_protocol (Some "proto") (initial "ns/host/1")).2
             "ns/service/registrar" "(primary started (reg topic) 12345)"
             (SList [Atom "reg"; Atom "topic"]) (Atom "12345")
             eq_refl eq_refl). by eexists.
Defined.

Lemma stopped_calls_registrar_handler_witness :
  let w := (set_terminate_registrar_not_found true
              (set_registrar_handler (Some 7) (connected "ns/host/1")).2).2 in
  Framework.on_registrar_message spec_parse_result "me"
    (λ _ _ _, raise RuntimeError) "ns/service/registrar" "(primary stopped)" w
  = (Raise RuntimeError,
     (terminate 1
        (set_public (set_connection TRANSPORT)
           (set_public (set_topic_path_registrar None) w))).2).
Proof.
  cbv zeta.
  rewrite (stopped_calls_registrar_handler spec_parse_result "me"
             (λ _ _ _, raise RuntimeError)
             (set_terminate_registrar_not_found true
                (set_registrar_handler (Some 7) (connected "ns/host/1")).2).2
             "ns/service/registrar" "(primary stopped)" 7
             eq_refl eq_refl).
  reflexivity.
Defined.

Lemma started_then_stopped_witness :
  let w := (set_protocol (Some "proto") (connected "ns/host/1")).2 in
  let run :=
    Framework.on_registrar_message spec_parse_result "me" (λ _ _ _, ret true)
      "ns/service/registrar" "(primary started reg/topic 12345)" >>;
    Framework.on_registrar_message spec_parse_result "me" (λ _ _ _, ret true)
      "ns/service/registrar" "(primary stopped)" in
  (run w).1 = Return tt
  ∧ message (public (run w).2) =
    Some [publish "reg/topic/in" "(add ns/host/1 proto mqtt me ())"]
  ∧ topic_path_registrar (public (run w).2) = None
  ∧ connection (public (run w).2) = TRANSPORT
  ∧ private (run w).2 = private w
  ∧ event_terminated (run w).2 = event_terminated w.
Proof.
  cbv zeta.
  apply (started_then_stopped spec_parse_result "me" (λ _ _ _, ret true)
           (set_protocol (Some "proto") (connected "ns/host/1")).2
           "ns/service/registrar" "(primary started reg/topic 12345)"
           "(primary stopped)" "reg/topic" (Atom "12345") []);
    reflexivity.
Defined.

(** ** Tags *)

Section TagFacts.

Implicit Types (tags l : list string) (key value tag : string).

(** X21. [match_tags] is containment: it answers true exactly when every
    tag asked for is among the service's tags; an empty request always
    matches. *)
Theorem match_tags_subset (service_tags wanted : list string) :
  (match_tags service_tags wanted = true ↔ wanted ⊆ service_tags)
  ∧ match_tags service_tags [] = true.
Proof.
  split; [|done]. unfold match_tags, list_in. rewrite forallb_forall. split.
  - intros H x Hx. apply list_elem_of_In, H in Hx.
    by apply bool_decide_eq_true in Hx.
  - intros H x Hx. apply bool_decide_eq_true, H. by apply list_elem_of_In.
Qed.

Lemma split_on_two key value :
  contains "=" key = false → contains "=" value = false →
  split_on "=" (key +:+ "=" +:+ value) = [key; value].
Proof.
  intros Hk Hv.
  change (key +:+ "=" +:+ value) with (key +:+ String "=" value).
  by rewrite split_on_app, !split_on_no_separator.
Qed.

Lemma split_on_pair tag :
  (∃ key value, split_on "=" tag = [key; value]) ↔ count_char "=" tag = 1.
Proof.
  pose proof (split_on_length "=" tag) as Hlen. split.
  - intros (key & value & Hs). rewrite Hs in Hlen. simpl in Hlen. lia.
  - intros Hc. rewrite Hc in Hlen.
    destruct (split_on "=" tag) as [|key [|value [|? ?]]]; simpl in Hlen;
      try lia. by exists key, value.
Qed.

Lemma parse_tags_loop_ok l (m : gmap string string) :
  Forall (λ tag, count_char "=" tag = 1) l →
  ∃ m', parse_tags_loop l m = Return m'.
Proof.
  revert m. induction l as [|tag l IH]; intros m Hall; simpl; [by eexists|].
  apply Forall_cons in Hall as [Htag Hall].
  apply split_on_pair in Htag as (key & value & ->). by apply IH.
Qed.

Lemma parse_tags_loop_bad l (m : gmap string string) :
  ¬ Forall (λ tag, count_char "=" tag = 1) l →
  parse_tags_loop l m = Raise ValueError.
Proof.
  revert m. induction l as [|tag l IH]; intros m Hbad; simpl.
  - destruct Hbad. constructor.
  - destruct (decide (count_char "=" tag = 1)) as [Htag|Htag].
    + apply split_on_pair in Htag as Hs. destruct Hs as (key & value & ->).
      apply IH. intros Hall. apply Hbad. by constructor.
    + destruct (split_on "=" tag) as [|key [|value [|? ?]]] eqn:Hs; try done.
      exfalso. apply Htag, split_on_pair. by exists key, value.
Qed.

(** X22. [parse_tags] returns a dictionary exactly when every tag holds
    one [=]; a tag with none or with several makes it raise
    [ValueError]. *)
Theorem parse_tags_succeeds_iff l :
  (Forall (λ tag, count_char "=" tag = 1) l → ∃ m, parse_tags l = Return m)
  ∧ (¬ Forall (λ tag, count_char "=" tag = 1) l →
     parse_tags l = Raise ValueError).
Proof.
  split; [apply parse_tags_loop_ok|apply parse_tags_loop_bad].
Qed.

Lemma parse_tags_loop_app l1 l2 (m : gmap string string) :
  parse_tags_loop (l1 ++ l2) m =
  match parse_tags_loop l1 m with
  | Return m1 => parse_tags_loop l2 m1
  | Raise e => Raise e
  end.
Proof.
  revert m. induction l1 as [|tag l1 IH]; intros m; simpl; [done|].
  by destruct (split_on "=" tag) as [|key [|value [|? ?]]].
Qed.

(** X23. The last tag for a key wins: after well-formed tags, a final tag
    [key=value] makes [get_tag] answer [value] for that key, whatever the
    tags before say. *)
Theorem get_tag_last_wins l key value :
  Forall (λ tag, count_char "=" tag = 1) l →
  contains "=" key = false →
  contains "=" value = false →
  get_tag key (l ++ [key +:+ "=" +:+ value]) = Return (Some value).
Proof.
  intros Hall Hk Hv. unfold get_tag, parse_tags.
  rewrite parse_tags_loop_app.
  destruct (parse_tags_loop_ok l ∅ Hall) as [m ->]. simpl.
  rewrite (split_on_two _ _ Hk Hv). by rewrite lookup_insert_eq.
Qed.

Lemma get_tag_last_wins_witness :
  get_tag "name" (["name=a"; "x=1"] ++ ["name" +:+ "=" +:+ "b"])
  = Return (Some "b").
Proof.
  apply (get_tag_last_wins ["name=a"; "x=1"] "name" "b").
  - repeat constructor.
  - reflexivity.
  - reflexivity.
Defined.

Lemma parse_tags_loop_chars s (m : gmap string string) :
  (∃ c, c ∈ String.list_ascii_of_string s ∧ c ≠ "="%char) →
  parse_tags_loop (chars s) m = Raise ValueError.
Proof.
  revert m. induction s as [|c s IH]; intros m [c' [Hin Hne]]; simpl in *.
  - by apply elem_of_nil in Hin.
  - case_bool_decide as Hc; [|done]. subst c. apply IH.
    exists c'. split; [|done].
    apply elem_of_cons in Hin as [->|?]; done.
Qed.

(** X24. [parse_tags] given a string instead of a list, as
    [process_pipeline_arguments] gives it its [tags_string], goes through
    the characters: it raises [ValueError] as soon as the string holds a
    character other than [=]. *)
Theorem parse_tags_of_string_raises s :
  (∃ c, c ∈ String.list_ascii_of_string s ∧ c ≠ "="%char) →
  parse_tags (chars s) = Raise ValueError.
Proof. apply parse_tags_loop_chars. Qed.

Lemma parse_tags_of_string_raises_witness :
  parse_tags (chars "a=1,b=2") = Raise ValueError.
Proof.
  apply (parse_tags_of_string_raises "a=1,b=2").
  exists "a"%char. split; [by left|discriminate].
Defined.

Lemma split_on_join_inverse sep l :
  Forall (λ t, contains sep t = false) l → l ≠ [] →
  split_on sep (join (String sep "") l) = l.
Proof.
  induction l as [|x [|y l] IH]; intros Hall Hne; [done| |].
  - simpl. apply Forall_cons in Hall as [Hx _].
    by apply split_on_no_separator.
  - apply Forall_cons in Hall as [Hx Hall].
    change (join (String sep "") (x :: y :: l))
      with (x +:+ String sep (join (String sep "") (y :: l))).
    rewrite split_on_app, (split_on_no_separator _ _ Hx), IH; done.
Qed.

(** X25. [add_tags_string] adds nothing for [None] and for the empty
    string; for comma separated tags it appends them, in order, to the
    tags the actor has. *)
Theorem add_tags_string_appends (w : Framework.World) l :
  add_tags_string None w = (Return tt, w)
  ∧ add_tags_string (Some "") w = (Return tt, w)
  ∧ (Forall (λ t, contains "," t = false) l →
     join "," l ≠ "" →
     (add_tags_string (Some (join "," l)) w).1 = Return tt
     ∧ tags (public (add_tags_string (Some (join "," l)) w).2) =
       tags (public w) ++ l).
Proof.
  split; [done|]. split; [done|]. intros Hall Hne.
  unfold add_tags_string. rewrite bool_decide_eq_false_2 by done. simpl.
  rewrite split_on_join_inverse; [done|done|]. by intros ->.
Qed.

Lemma add_tags_string_appends_witness :
  let w := (add_tags ["name=a"] (initial "ns/host/1")).2 in
  (add_tags_string (Some (join "," ["x=1"; "y=2"])) w).1 = Return tt
  ∧ tags (public (add_tags_string (Some (join "," ["x=1"; "y=2"])) w).2) =
    tags (public w) ++ ["x=1"; "y=2"].
Proof.
  cbv zeta.
  apply (add_tags_string_appends
           (add_tags ["name=a"] (initial "ns/host/1")).2 ["x=1"; "y=2"]).
  - repeat constructor.
  - discriminate.
Defined.

End TagFacts.

Lemma parse_tags_succeeds_iff_witness :
  (∃ m, parse_tags ["name=a"; "x=1"] = Return m)
  ∧ parse_tags ["name=a"; "x"] = Raise ValueError.
Proof.
  split.
  - apply (proj1 (parse_tags_succeeds_iff ["name=a"; "x=1"])).
    repeat constructor.
  - apply (proj2 (parse_tags_succeeds_iff ["name=a"; "x"])).
    intros H. apply Forall_cons in H as [_ H].
    apply Forall_cons in H as [H _]. vm_compute in H. discriminate.
Defined.

(** ** Messages and mailboxes *)

Section ActorMore.

Variables Arg Heap : Type.
Variable str_arguments : list Arg → string.
Variable str_exn : exn → string.
Variable accepts : Callable → nat → bool.
Variable body : Callable → list Arg → M (Actor.World Heap) unit.

Local Abbreviation invoke :=
  (Actor.invoke Arg Heap str_arguments str_exn accepts body).
Local Abbreviation call := (Actor.call Arg Heap accepts body).
Local Abbreviation after_debug self w :=
  (debug_line Arg Heap str_arguments self w).2.

Implicit Types (self : Message Arg) (w : Actor.World Heap).

(** X26. An exception leaves [invoke] in two ways only.  Without a truthy
    handler and with a command that is no string, the attribute lookup
    raises [TypeError], before any call and with only the debug line
    written.  Otherwise the exception was raised by the body of the
    resolved callable, after its arguments bound, and is no
    [TypeError]. *)
Theorem invoke_raises_only self w e :
  (invoke self w).1 = Raise e →
  (e = TypeError
   ∧ value_truthy (target_function Arg self) = false
   ∧ (∃ text, command Arg self = CommandOther text)
   ∧ (invoke self w).2 = after_debug self w)
  ∨ (is_TypeError e = false
     ∧ ∃ b f w1, resolve Arg self = Return (VObject b (Some f))
         ∧ accepts f (length (arguments Arg self)) = true
         ∧ body f (arguments Arg self) (after_debug self w) = (Raise e, w1)
         ∧ (invoke self w).2 = w1).
Proof.
  rewrite invoke_unfold.
  destruct (resolve Arg self) as [[|b [f|]]|e0] eqn:Hres; [done| |done|].
  - unfold Actor.call.
    destruct (accepts f (length (arguments Arg self))) eqn:Hacc; [|done].
    destruct (body f (arguments Arg self) (after_debug self w))
      as [[[]|e'] w1] eqn:Hbody; [done|].
    destruct (is_TypeError e') eqn:He'; [done|]. simpl. intros [= <-].
    right. split; [done|]. by exists b, f, w1.
  - simpl. intros [= <-]. left. unfold resolve in Hres.
    destruct (value_truthy (target_function Arg self)); [done|]. simpl in Hres.
    destruct (command Arg self) as [name|text].
    + by destruct (attributes (target_object Arg self) !! name).
    + injection Hres as <-. split; [done|]. split; [done|].
      split; [by exists text|done].
Qed.

Variable process_run : M (Actor.World Heap) unit.
Variable format_exc : exn → string.

Local Abbreviation run := (Actor.run Heap process_run format_exc).

(** X28. An exception of the event loop that is no [Exception], such as
    [SystemExit], passes through [run] as it is: nothing is logged and the
    state is the one the loop left. *)
Theorem run_base_exception_passes w e w1 :
  process_run (Actor.set_share Heap "running" (SBool true) w).2 = (Raise e, w1) →
  is_Exception e = false →
  run w = (Raise e, w1).
Proof.
  intros Hloop He. unfold Actor.run, bind, try_except. simpl in *.
  by rewrite Hloop, He.
Qed.

End ActorMore.

Lemma invoke_raises_only_witness :
  let self :=
    Actor.mkMessage string (mkObject ∅ "[actor]")
      (CommandOther "['a', 'b']") ["1"] VNone in
  let w := Actor.mkWorld nat [] false ∅ 0 in
  let accepts : Callable → nat → bool := λ _ _, true in
  let body : Callable → list string → M (Actor.World nat) unit :=
    λ _ _, ret tt in
  let invoke := Actor.invoke string nat (λ _, "[]") (λ _, "") accepts body in
  (TypeError = TypeError
   ∧ value_truthy (target_function string self) = false
   ∧ (∃ text, command string self = CommandOther text)
   ∧ (invoke self w).2 = (debug_line string nat (λ _, "[]") self w).2)
  ∨ (is_TypeError TypeError = false
     ∧ ∃ b f w1, resolve string self = Return (VObject b (Some f))
         ∧ accepts f (length (arguments string self)) = true
         ∧ body f (arguments string self)
             (debug_line string nat (λ _, "[]") self w).2
           = (Raise TypeError, w1)
         ∧ (invoke self w).2 = w1).
Proof.
  cbv zeta.
  apply (invoke_raises_only string nat (λ _, "[]") (λ _, "")
           (λ _ _, true) (λ _ _, ret tt)
           (Actor.mkMessage string (mkObject ∅ "[actor]")
              (CommandOther "['a', 'b']") ["1"] VNone)
           (Actor.mkWorld nat [] false ∅ 0) TypeError).
  by vm_compute.
Defined.

Lemma run_normal_exit_witness :
  let w := Actor.mkWorld unit [] false {["running" := SBool false]} tt in
  is_running unit (Actor.set_share unit "running" (SBool true) w).2
    = Some (SBool true)
  ∧ Actor.run unit (ret tt) (λ _, "") w
    = (Return tt,
       (Actor.set_share unit "running" (SBool false)
          (Actor.set_share unit "running" (SBool true) w).2).2)
  ∧ is_running unit (Actor.run unit (ret tt) (λ _, "") w).2 = Some (SBool false).
Proof.
  cbv zeta.
  apply (run_normal_exit unit (ret tt) (λ _, "")
           (Actor.mkWorld unit [] false {["running" := SBool false]} tt)
           (Actor.set_share unit "running" (SBool true)
              (Actor.mkWorld unit [] false {["running" := SBool false]} tt)).2).
  reflexivity.
Defined.

Lemma run_base_exception_passes_witness :
  let w := Actor.mkWorld unit [] false {["running" := SBool false]} tt in
  Actor.run unit (raise SystemExit) (λ _, "") w
  = (Raise SystemExit, (Actor.set_share unit "running" (SBool true) w).2).
Proof.
  cbv zeta.
  apply (run_base_exception_passes unit (raise SystemExit) (λ _, "")
           (Actor.mkWorld unit [] false {["running" := SBool false]} tt)
           SystemExit); reflexivity.
Defined.

Section MailboxFacts.

Variable Arg : Type.

Implicit Types (self : ActorImpl) (posted : list (string * Message Arg)).

Lemma actor_mailbox_name_inj self (t1 t2 : string) :
  _actor_mailbox_name self t1 = _actor_mailbox_name self t2 → t1 = t2.
Proof.
  unfold _actor_mailbox_name. intros H.
  apply (inj (String.app (name self))) in H.
  apply (inj (String.app "/")) in H.
  apply (inj (String.app (service_id self))) in H.
  by apply (inj (String.app "/")) in H.
Qed.

(** X29. A proxied call is posted to the control mailbox of the actor
    when the function's name starts with [control_], and to its in
    mailbox otherwise; the message carries the function itself, so the
    mailbox handler calls that function with the posted arguments,
    whatever attributes the actor has. *)
Theorem proxy_post_message_routes
  (function_name : Callable → string) proxy_name self f (args : list Arg) posted :
  let command := function_name f in
  let topic :=
    if String.prefix "control_" command
    then ActorTopic.CONTROL else ActorTopic.IN in
  let message :=
    Actor.mkMessage Arg (actor_object self) (CommandStr command) args
      (VObject true (Some f)) in
  proxy_post_message Arg function_name proxy_name self f args posted =
    (Return tt, posted ++ [(_actor_mailbox_name self topic, message)])
  ∧ resolve Arg message = Return (VObject true (Some f))
  ∧ ∀ (Heap Time : Type) str_arguments str_exn accepts body mailbox
      (time_posted : Time) (w : Actor.World Heap),
      _mailbox_handler Arg Heap Time str_arguments str_exn accepts body
        self mailbox message time_posted w =
      match Actor.call Arg Heap accepts body f args
              (debug_line Arg Heap str_arguments message w).2 with
      | (Return _, w1) => (Return tt, w1)
      | (Raise e, w1) =>
          if is_TypeError e
          then logger_call Heap ERROR
                 (Actor.repr Arg str_arguments message +:+ ": " +:+ str_exn e) w1
          else (Raise e, w1)
      end.
Proof.
  cbv zeta. split; [done|]. split; [done|]. intros.
  unfold _mailbox_handler. by rewrite invoke_unfold.
Qed.

(** X30. A payload that [parse] accepts is always posted to the in
    mailbox of the actor, which is never the control mailbox, also when
    its command is named [control_...].  The message carries no function:
    for a string command the callable is the actor's attribute of that
    name, or [None] when there is none; for a command that is no string
    the lookup raises [TypeError].  When [parse] raises, nothing is posted
    and the exception leaves the handler. *)
Theorem topic_in_handler_posts_to_in
  (parse : string → result (Command * list Arg)) self topic payload_in posted :
  (∀ command parameters,
     parse payload_in = Return (command, parameters) →
     let message :=
       Actor.mkMessage Arg (actor_object self) command parameters VNone in
     _topic_in_handler Arg parse self topic payload_in posted =
       (Return tt, posted ++ [(_actor_mailbox_name self ActorTopic.IN, message)])
     ∧ (∀ name, command = CommandStr name →
          resolve Arg message =
          Return (default VNone (attributes (actor_object self) !! name)))
     ∧ (∀ text, command = CommandOther text →
          resolve Arg message = Raise TypeError))
  ∧ (∀ e, parse payload_in = Raise e →
       _topic_in_handler Arg parse self topic payload_in posted =
       (Raise e, posted))
  ∧ _actor_mailbox_name self ActorTopic.IN
    ≠ _actor_mailbox_name self ActorTopic.CONTROL.
Proof.
  split; [|split].
  - intros command parameters Hparse. cbv zeta. split; [|split].
    + unfold _topic_in_handler. by rewrite Hparse.
    + intros name ->. unfold resolve. simpl.
      by destruct (attributes (actor_object self) !! name).
    + by intros text ->.
  - intros e Hparse. unfold _topic_in_handler. by rewrite Hparse.
  - by intros [=]%actor_mailbox_name_inj.
Qed.

End MailboxFacts.

(** ** Dispatch after registrations *)

Section DispatchRegistered.

Implicit Types (w : Framework.World) (registrations : list (Handler * string)).

Lemma register_all_snoc registrations h t w :
  register_all (registrations ++ [(h, t)]) w =
  (add_message_handler h t (register_all registrations w)).2.
Proof. unfold register_all. by rewrite foldl_app. Qed.

Lemma empty_tables_wf w :
  message_handlers (private w) = ∅ →
  message_handlers_wildcard_topics (private w) = [] →
  registry_wf w.
Proof. intros Hm Hw. by apply reachable_wf, reachable_start. Qed.

Lemma register_all_wf registrations w :
  registry_wf w → registry_wf (register_all registrations w).
Proof.
  revert w. induction registrations as [|[h t] rest IH]; intros w Hw; [done|].
  simpl. apply IH. by apply add_message_handler_wf.
Qed.

Lemma handlers_registered_snoc registrations h t0 t :
  handlers_registered (registrations ++ [(h, t0)]) t =
  handlers_registered registrations t ++ (if decide (t0 = t) then [h] else []).
Proof.
  unfold handlers_registered. rewrite List.filter_app, fmap_app. simpl.
  destruct (decide (t0 = t)) as [->|Hne].
  - by rewrite bool_decide_eq_true_2.
  - by rewrite bool_decide_eq_false_2.
Qed.

Lemma patterns_registered_snoc registrations h t0 :
  patterns_registered (registrations ++ [(h, t0)]) =
  if is_wildcard t0 && negb (list_in t0 (patterns_registered registrations))
  then patterns_registered registrations ++ [t0]
  else patterns_registered registrations.
Proof. unfold patterns_registered. by rewrite foldl_app. Qed.

(** The two tables after a series of registrations on empty tables. *)
Lemma register_all_tables registrations w0 :
  message_handlers (private w0) = ∅ →
  message_handlers_wildcard_topics (private w0) = [] →
  (∀ t, default [] (message_handlers (private (register_all registrations w0)) !! t)
        = handlers_registered registrations t)
  ∧ message_handlers_wildcard_topics (private (register_all registrations w0))
    = patterns_registered registrations.
Proof.
  intros Hm Hw.
  induction registrations as [|[h t0] registrations [IHm IHw]] using rev_ind.
  - simpl. split; [|done]. intros t. by rewrite Hm, lookup_empty.
  - pose proof (register_all_wf registrations w0 (empty_tables_wf w0 Hm Hw))
      as (_ & Hiff & Hne).
    rewrite register_all_snoc.
    destruct (add_message_handler_tables (register_all registrations w0) h t0)
      as [-> ->].
    split.
    + intros t. rewrite handlers_registered_snoc.
      destruct (decide (t0 = t)) as [->|Hneq].
      * rewrite lookup_insert_eq. simpl. by rewrite IHm.
      * rewrite lookup_insert_ne by done. by rewrite IHm, app_nil_r.
    + rewrite patterns_registered_snoc, <- IHw. fold (is_wildcard t0).
      unfold list_in.
      destruct (is_wildcard t0) eqn:Hwc; simpl.
      * case_bool_decide as Hreg.
        -- rewrite bool_decide_eq_true_2; [by rewrite app_nil_r|].
           by apply Hiff.
        -- rewrite bool_decide_eq_false_2; [done|].
           intros Hin. apply Hreg. by apply Hiff in Hin as [? _].
      * case_bool_decide; by rewrite app_nil_r.
Qed.

(** The handler list of a message is the dispatch order of the
    registrations. *)
Lemma handler_list_registered registrations w0 topic :
  message_handlers (private w0) = ∅ →
  message_handlers_wildcard_topics (private w0) = [] →
  let w := register_all registrations w0 in
  extend_handlers w (topic_search w topic (message_handlers (private w))) [] =
  Return (dispatch_order registrations topic).
Proof.
  intros Hm Hw w.
  destruct (register_all_tables registrations w0 Hm Hw) as [Htab Hwild].
  fold w in Htab, Hwild.
  assert (Hcons : registry_consistent w).
  { pose proof (register_all_wf registrations w0 (empty_tables_wf w0 Hm Hw))
      as (_ & Hiff & _).
    intros t Ht. by apply Hiff in Ht as [? _]. }
  destruct (handler_list_total w topic Hcons) as [hs Hhs].
  rewrite Hhs. f_equal.
  apply extend_handlers_concat in Hhs. simpl in Hhs. rewrite Hhs.
  rewrite topic_search_in_wildcard_order_aux, fmap_app, concat_app.
  unfold dispatch_order. rewrite Hwild. f_equal.
  - case_bool_decide as Hreg; simpl.
    + by rewrite app_nil_r, Htab.
    + rewrite <- Htab.
      destruct (message_handlers (private w) !! topic) eqn:Hl; [|done].
      exfalso. apply Hreg. by eexists.
  - f_equal. apply list_fmap_ext. intros i p _. apply Htab.
Qed.

End DispatchRegistered.

Section DispatchRegisteredOrder.

Variable handler_call : Handler → string → string → M Framework.World bool.
Variable format_exc : exn → string.

Local Abbreviation invoke_handlers :=
  (Framework.invoke_handlers handler_call format_exc).
Local Abbreviation message_queue_handler :=
  (Framework.message_queue_handler handler_call format_exc).

(** C7, amended: after a series of registrations on empty tables the
    router tries, for a message, the handlers registered on the topic
    itself first, then the handlers of each matching wildcard pattern,
    the patterns in the order in which they were first registered; the
    handlers of one topic or pattern are tried in the order of their
    registration.  It stops at the first handler that returns true: the
    handlers called are that list up to and including this handler, and
    none after it. *)
Theorem dispatch_order_by_pattern
  (registrations : list (Handler * string)) (w0 : Framework.World)
  (message : MQTTMessage) payload_in :
  message_handlers (private w0) = ∅ →
  message_handlers_wildcard_topics (private w0) = [] →
  payload message = Some payload_in →
  let w := register_all registrations w0 in
  let hs := dispatch_order registrations (topic message) in
  extend_handlers w
    (topic_search w (topic message) (message_handlers (private w))) [] =
    Return hs
  ∧ (message_queue_handler message w).1.2 `prefix_of` hs
  ∧ ∀ pre h post called1 w1 w2,
      hs = pre ++ h :: post →
      invoke_handlers pre (topic message) payload_in [] w =
        (Return false, called1, w1) →
      handler_call h (topic message) payload_in w1 = (Return true, w2) →
      message_queue_handler message w = (Return tt, pre ++ [h], w2).
Proof.
  intros Hm Hw Hp w hs.
  pose proof (handler_list_registered registrations w0 (topic message) Hm Hw)
    as Hhs. fold w hs in Hhs. split; [done|].
  rewrite (message_queue_handler_unfold _ _ _ _ _ _ Hp Hhs). split.
  - destruct (invoke_handlers_called handler_call format_exc hs (topic message)
                payload_in [] w) as [k Hk].
    destruct (invoke_handlers hs (topic message) payload_in [] w)
      as [[[b|e] called] w']; simpl in *; subst called;
      exists (drop k hs); by rewrite take_drop.
  - intros pre h post called1 w1 w2 Heq Hpre Hh.
    rewrite Heq, invoke_handlers_app, Hpre. simpl. rewrite Hh.
    by apply invoke_handlers_fell_through in Hpre as ->.
Qed.

End DispatchRegisteredOrder.

Lemma dispatch_order_by_pattern_witness :
  let handler_call : Handler → string → string → M Framework.World bool :=
    λ h _ _, ret (bool_decide (h = 3)) in
  let registrations :=
    [(1, "ns/+/y"); (2, "ns/#"); (3, "ns/+/y"); (4, "ns/x/y"); (5, "ns/+/y")] in
  let w := register_all registrations (connected "ns/host/1") in
  dispatch_order registrations "ns/x/y" = [4; 1; 3; 5]
  ∧ Framework.message_queue_handler handler_call (λ _, "")
      (Framework.mkMessage "ns/x/y" (Some "(x)")) w
    = (Return tt, [4; 1; 3], w).
Proof.
  cbv zeta. split; [by vm_compute|].
  set (registrations :=
         [(1, "ns/+/y"); (2, "ns/#"); (3, "ns/+/y"); (4, "ns/x/y"); (5, "ns/+/y")]).
  set (w := register_all registrations (connected "ns/host/1")).
  set (handler_call := (λ h _ _, ret (bool_decide (h = 3)))
                        : Handler → string → string → M Framework.World bool).
  destruct (dispatch_order_by_pattern handler_call (λ _, "") registrations
              (connected "ns/host/1")
              (Framework.mkMessage "ns/x/y" (Some "(x)")) "(x)"
              eq_refl eq_refl eq_refl) as (_ & _ & Hstop).
  apply (Hstop [4; 1] 3 [5] [4; 1] w w); by vm_compute.
Defined.

Lemma topic_in_handler_posts_to_in_witness :
  let parse : string → result (Command * list string) :=
    λ payload, if bool_decide (payload = "") then Raise IndexError
               else Return (CommandStr "control_stop", []) in
  let self := mkActorImpl (mkObject ∅ "[actor]") "actor" "1" in
  _topic_in_handler string parse self "ns/host/1/in" "(control_stop)" [] =
    (Return tt,
     [("actor/1/in",
       Actor.mkMessage string (mkObject ∅ "[actor]")
         (CommandStr "control_stop") [] VNone)])
  ∧ _topic_in_handler string parse self "ns/host/1/in" "" [] =
    (Raise IndexError, []).
Proof.
  cbv zeta.
  set (parse := (λ payload, if bool_decide (payload = "") then Raise IndexError
                            else Return (CommandStr "control_stop", []))
                : string → result (Command * list string)).
  set (self := mkActorImpl (mkObject ∅ "[actor]") "actor" "1").
  split.
  - destruct (topic_in_handler_posts_to_in string parse self "ns/host/1/in"
                "(control_stop)" []) as [Hposts _].
    destruct (Hposts (CommandStr "control_stop") [] eq_refl) as [Hrun _].
    exact Hrun.
  - destruct (topic_in_handler_posts_to_in string parse self "ns/host/1/in"
                "" []) as (_ & Hraise & _).
    exact (Hraise IndexError eq_refl).
Defined.
